(** * cloco-node: the authenticated request client (src/api-client.ts)

    A shallow embedding of [ApiClient] and of the part of the JavaScript
    runtime it runs on: values and the object heap, property reads that
    throw on [undefined], template literals, promises, and the callback
    handed to the restify transport. *)

From Stdlib Require Import ZArith Ascii String List.
From stdpp Require Import gmap strings list fin_maps pretty.

Local Open Scope string_scope.
Local Open Scope list_scope.

(** ** JavaScript values and the object heap *)

(** An object is identified by its position in the heap. *)
Definition loc := nat.

(** Numbers are integers here: the client does no arithmetic, a number only
    ever shows up as one more kind of non-string value. *)
Inductive JsValue : Type :=
| JsUndefined
| JsNull
| JsBoolean (b : bool)
| JsNumber (n : Z)
| JsString (s : string)
| JsObject (l : loc).

#[global] Instance JsValue_eq_dec : EqDecision JsValue.
Proof. solve_decision. Defined.

(** Heap objects are plain objects: a finite map from property names to
    values.  [obj.name] on a property that was never set is [undefined]. *)
Abbreviation Props := (gmap string JsValue).
Abbreviation Heap := (list (gmap string JsValue)).

Definition field (o : Props) (name : string) : JsValue :=
  default JsUndefined (o !! name).

(** [typeof v] *)
Definition typeof (v : JsValue) : string :=
  match v with
  | JsUndefined => "undefined"
  | JsNull => "object"
  | JsBoolean _ => "boolean"
  | JsNumber _ => "number"
  | JsString _ => "string"
  | JsObject _ => "object"
  end.

(** [a === b]: primitives by value, objects by identity. *)
Definition strict_eq (a b : JsValue) : bool := bool_decide (a = b).

(** The truthiness test of [if (v)]. *)
Definition truthy (v : JsValue) : bool :=
  match v with
  | JsUndefined | JsNull => false
  | JsBoolean b => b
  | JsNumber n => negb (n =? 0)%Z
  | JsString s => match s with EmptyString => false | String _ _ => true end
  | JsObject _ => true
  end.

(** [ToString], as a template literal applies it to each [${...}].  A plain
    object prints as [[object Object]]. *)
Definition ToString (v : JsValue) : string :=
  match v with
  | JsUndefined => "undefined"
  | JsNull => "null"
  | JsBoolean true => "true"
  | JsBoolean false => "false"
  | JsNumber n => pretty n
  | JsString s => s
  | JsObject _ => "[object Object]"
  end.

(** ** Exceptions, promises, the transport *)

(** What the runtime itself throws under this client. *)
Inductive Exception : Type :=
| TypeError_cannot_read (base : JsValue) (name : string)
| TypeError_cannot_set (base : JsValue) (name : string)
| SyntaxError_JSON (text : string).

(** A promise is rejected either with a value handed to [reject], or with
    the exception that ended the body of an [async] function. *)
Inductive Reason : Type :=
| Handed (err : JsValue)
| Raised (e : Exception).

Inductive Settlement : Type :=
| Pending
| Resolved (value : JsValue)
| Rejected (reason : Reason).

Inductive Encoding : Type := JsonClient | StringClient.

(** What [restify.createJsonClient(o)] and [restify.createStringClient(o)]
    return: the client remembers its encoding and the options object. *)
Record Client : Type := mkClient {
  encoding : Encoding;
  client_options : JsValue
}.

Inductive Verb : Type := GET | PUT | POST.

(** The five callbacks of the source, as closures: each captures the
    [resolve]/[reject] pair of its promise, and the one of
    [putConfigObject] also captures [parseResponse]. *)
Inductive Callback : Type :=
| getApplication_callback (promise : nat)
| getConfigObject_callback (promise : nat)
| putConfigObject_callback (promise : nat) (parseResponse : bool)
| getAccessTokenFromRefreshToken_callback (promise : nat)
| getAccessTokenFromClientCredentials_callback (promise : nat).

(** A request handed to the transport ([client.get], [client.put],
    [client.post]); the transport calls the callback later, once. *)
Record Request : Type := mkRequest {
  req_client : Client;
  req_verb : Verb;
  req_path : string;
  req_body : option JsValue;
  req_callback : Callback
}.

Inductive Level : Type := Trace | Error.

Record LogEntry : Type := mkLogEntry {
  level : Level;
  message : string;
  data : list (string * JsValue)
}.

Record State : Type := mkState {
  heap : Heap;
  promises : list Settlement;
  requests : list Request;
  log : list LogEntry
}.

(** ** The monad of JavaScript statements: state and exceptions *)

Inductive Result (A : Type) : Type :=
| Ok (a : A)
| Throw (e : Exception).
Arguments Ok {A} a.
Arguments Throw {A} e.

Definition M (A : Type) : Type := State -> Result A * State.

#[global] Instance M_ret : MRet M := fun A a st => (Ok a, st).

#[global] Instance M_bind : MBind M := fun A B k m st =>
  match m st with
  | (Ok a, st') => k a st'
  | (Throw e, st') => (Throw e, st')
  end.

Definition throw {A : Type} (e : Exception) : M A := fun st => (Throw e, st).

Definition with_heap (f : Heap -> Heap) : M unit := fun st =>
  (Ok tt, mkState (f (heap st)) (promises st) (requests st) (log st)).

(** [base.name].  None of the names read by the client is a property of a
    primitive wrapper, so a primitive base reads as [undefined]. *)
Definition get_prop (base : JsValue) (name : string) : M JsValue := fun st =>
  match base with
  | JsUndefined | JsNull => (Throw (TypeError_cannot_read base name), st)
  | JsObject l => (Ok (field (default ∅ (heap st !! l)) name), st)
  | JsBoolean _ | JsNumber _ | JsString _ => (Ok JsUndefined, st)
  end.

(** [base.name = v] (strict mode: a primitive base throws as well). *)
Definition set_prop (base : JsValue) (name : string) (v : JsValue) : M unit :=
  match base with
  | JsObject l => with_heap (alter (insert name v) l)
  | _ => throw (TypeError_cannot_set base name)
  end.

(** An object literal, and [new C()] for a class with no initialisers. *)
Definition new_object (props : Props) : M JsValue := fun st =>
  (Ok (JsObject (length (heap st))),
   mkState (heap st ++ [props]) (promises st) (requests st) (log st)).

(** ** Promises *)

(** [new Promise(executor)]: a fresh pending promise.  The executors of the
    client only hand a request to the transport, see the operations. *)
Definition new_Promise : M nat := fun st =>
  (Ok (length (promises st)),
   mkState (heap st) (promises st ++ [Pending]) (requests st) (log st)).

(** [resolve] and [reject] settle a pending promise and do nothing to a
    settled one.  The values resolved here are data the transport decoded,
    never thenables. *)
Definition settle (p : nat) (s : Settlement) : M unit := fun st =>
  match promises st !! p with
  | Some Pending =>
      (Ok tt, mkState (heap st) (<[p := s]> (promises st)) (requests st) (log st))
  | _ => (Ok tt, st)
  end.

Definition resolve (p : nat) (value : JsValue) : M unit := settle p (Resolved value).
Definition reject (p : nat) (err : JsValue) : M unit := settle p (Rejected (Handed err)).

(** [async function]: the caller always gets a promise; when the body
    throws before it returns one, the promise is rejected with the exception. *)
Definition async (body : M nat) : M nat := fun st =>
  match body st with
  | (Ok p, st') => (Ok p, st')
  | (Throw e, st') =>
      (Ok (length (promises st')),
       mkState (heap st') (promises st' ++ [Rejected (Raised e)]) (requests st') (log st'))
  end.

(** ** The collaborators: logger, restify, Buffer *)

(** Modelled from the spec: the diagnostics sink (src/logging/logger.ts is
    not among the sources) is a side channel that records the event and
    touches nothing else. *)
Definition Logger_log (lvl : Level) (msg : string) (fields : list (string * JsValue)) : M unit :=
  fun st =>
    (Ok tt, mkState (heap st) (promises st) (requests st) (log st ++ [mkLogEntry lvl msg fields])).

Definition createJsonClient (options : JsValue) : M Client :=
  mret (mkClient JsonClient options).

Definition createStringClient (options : JsValue) : M Client :=
  mret (mkClient StringClient options).

(** [client.get], [client.put] and [client.post] hand the request to the
    transport and return; the reply comes later, through the callback. *)
Definition send (r : Request) : M unit := fun st =>
  (Ok tt, mkState (heap st) (promises st) (requests st ++ [r]) (log st)).

Definition client_get (client : Client) (path : string) (cb : Callback) : M unit :=
  send (mkRequest client GET path None cb).

Definition client_put (client : Client) (path : string) (body : JsValue) (cb : Callback) : M unit :=
  send (mkRequest client PUT path (Some body) cb).

Definition client_post (client : Client) (path : string) (body : JsValue) (cb : Callback) : M unit :=
  send (mkRequest client POST path (Some body) cb).

(** [new Buffer(s).toString("base64")]: strings are their UTF-8 bytes. *)
Definition base64_alphabet : string :=
  "ABCDEFGHIJKLMNOPQRSTUVWXYZabcdefghijklmnopqrstuvwxyz0123456789+/".

Definition base64_digit (n : N) : ascii :=
  default "="%char (String.get (N.to_nat n) base64_alphabet).

Fixpoint base64_bytes (bs : list N) : list ascii :=
  match bs with
  | [] => []
  | [a] =>
      [base64_digit (N.shiftr a 2);
       base64_digit (N.shiftl (N.land a 3) 4);
       "="%char; "="%char]
  | [a; b] =>
      [base64_digit (N.shiftr a 2);
       base64_digit (N.lor (N.shiftl (N.land a 3) 4) (N.shiftr b 4));
       base64_digit (N.shiftl (N.land b 15) 2);
       "="%char]
  | a :: b :: c :: rest =>
      base64_digit (N.shiftr a 2)
      :: base64_digit (N.lor (N.shiftl (N.land a 3) 4) (N.shiftr b 4))
      :: base64_digit (N.lor (N.shiftl (N.land b 15) 2) (N.shiftr c 6))
      :: base64_digit (N.land c 63)
      :: base64_bytes rest
  end.

Definition Buffer_toString_base64 (s : string) : string :=
  string_of_list_ascii (base64_bytes (map N_of_ascii (list_ascii_of_string s))).

(** Modelled from the spec: the TokenRequest class (src/types/token-request.ts
    is not among the sources) is a bare record of [grant_type] and
    [refresh_token]; a new one has neither until the caller assigns it. *)
Definition new_TokenRequest : M JsValue := new_object ∅.

(** ** ApiClient *)

(** [ApiClient.getRestifyOptions(options, credentialType?)] *)
Definition getRestifyOptions (options credentialType : JsValue) : M JsValue :=
  Logger_log Trace "ApiClient.getRestifyOptions: start" [] ;;
  url ← get_prop options "url" ;
  restifyOptions ← new_object {[ "url" := url; "version" := JsString "*" ]} ;
  headers ← new_object ∅ ;
  (if strict_eq credentialType (JsString "basic") then
     Logger_log Trace
       "ApiClient.getRestifyOptions: generating auth header with client credentials." [] ;;
     credentials ← get_prop options "credentials" ;
     key ← get_prop credentials "key" ;
     credentials ← get_prop options "credentials" ;
     secret ← get_prop credentials "secret" ;
     let encoded := Buffer_toString_base64 (ToString key +:+ ":" +:+ ToString secret) in
     set_prop headers "authorization" (JsString ("Basic " +:+ encoded))
   else
     Logger_log Trace
       "ApiClient.getRestifyOptions: generating auth header with bearer token." [] ;;
     tokens ← get_prop options "tokens" ;
     accessToken ← get_prop tokens "accessToken" ;
     set_prop headers "authorization" (JsString ("Bearer " +:+ ToString accessToken))) ;;
  set_prop restifyOptions "headers" headers ;;
  Logger_log Trace "ApiClient.getRestifyOptions: end" [] ;;
  mret restifyOptions.

(** [ApiClient.getApplication(options)] *)
Definition getApplication (options : JsValue) : M nat :=
  async (
    Logger_log Trace "ApiClient.getApplication: start" [] ;;
    restifyOptions ← getRestifyOptions options JsUndefined ;
    client ← createJsonClient restifyOptions ;
    subscription ← get_prop options "subscription" ;
    application ← get_prop options "application" ;
    let path := "/" +:+ ToString subscription +:+ "/applications/" +:+ ToString application in
    url ← get_prop options "url" ;
    Logger_log Trace "ApiClient.getApplication: Calling API"
      [("url", url); ("path", JsString path)] ;;
    promise ← new_Promise ;
    client_get client path (getApplication_callback promise) ;;
    mret promise).

(** [ApiClient.getConfigObject(options, objectId)] *)
Definition getConfigObject (options objectId : JsValue) : M nat :=
  async (
    Logger_log Trace "ApiClient.getConfigObject: start" [] ;;
    restifyOptions ← getRestifyOptions options JsUndefined ;
    client ← createJsonClient restifyOptions ;
    subscription ← get_prop options "subscription" ;
    application ← get_prop options "application" ;
    environment ← get_prop options "environment" ;
    let path := "/" +:+ ToString subscription +:+ "/configuration/" +:+ ToString application
                +:+ "/" +:+ ToString objectId +:+ "/" +:+ ToString environment in
    url ← get_prop options "url" ;
    Logger_log Trace "ApiClient.getConfigObject: Calling API"
      [("url", url); ("path", JsString path)] ;;
    promise ← new_Promise ;
    client_get client path (getConfigObject_callback promise) ;;
    mret promise).

(** [ApiClient.putConfigObject(options, objectId, body)] *)
Definition putConfigObject (options objectId body : JsValue) : M nat :=
  async (
    Logger_log Trace "ApiClient.putConfigObject: start" [] ;;
    '(client, parseResponse) ←
      (if String.eqb (typeof body) "string" then
         Logger_log Trace "ApiClient.putConfigObject: creating string client." [] ;;
         restifyOptions ← getRestifyOptions options JsUndefined ;
         client ← createStringClient restifyOptions ;
         mret (client, true)
       else
         Logger_log Trace "ApiClient.putConfigObject: creating JSON client." [] ;;
         restifyOptions ← getRestifyOptions options JsUndefined ;
         client ← createJsonClient restifyOptions ;
         mret (client, false)) ;
    subscription ← get_prop options "subscription" ;
    application ← get_prop options "application" ;
    environment ← get_prop options "environment" ;
    let path := "/" +:+ ToString subscription +:+ "/configuration/" +:+ ToString application
                +:+ "/" +:+ ToString objectId +:+ "/" +:+ ToString environment in
    url ← get_prop options "url" ;
    Logger_log Trace "ApiClient.putConfigObject: Calling API"
      [("url", url); ("path", JsString path)] ;;
    promise ← new_Promise ;
    client_put client path body (putConfigObject_callback promise parseResponse) ;;
    mret promise).

(** [ApiClient.getAccessTokenFromRefreshToken(options)] *)
Definition getAccessTokenFromRefreshToken (options : JsValue) : M nat :=
  async (
    Logger_log Trace "ApiClient.getAccessTokenFromRefreshToken: start" [] ;;
    restifyOptions ← getRestifyOptions options JsUndefined ;
    client ← createJsonClient restifyOptions ;
    let path := "/oauth/token" in
    body ← new_TokenRequest ;
    set_prop body "grant_type" (JsString "refresh_token") ;;
    tokens ← get_prop options "tokens" ;
    refreshToken ← get_prop tokens "refreshToken" ;
    set_prop body "refresh_token" refreshToken ;;
    url ← get_prop options "url" ;
    Logger_log Trace "ApiClient.getAccessTokenFromRefreshToken: Calling API"
      [("url", url); ("path", JsString path)] ;;
    promise ← new_Promise ;
    client_post client path body (getAccessTokenFromRefreshToken_callback promise) ;;
    mret promise).

(** [ApiClient.getAccessTokenFromClientCredentials(options)] *)
Definition getAccessTokenFromClientCredentials (options : JsValue) : M nat :=
  async (
    Logger_log Trace "ApiClient.getAccessTokenFromClientCredentials: start" [] ;;
    restifyOptions ← getRestifyOptions options (JsString "basic") ;
    client ← createJsonClient restifyOptions ;
    let path := "/oauth/token" in
    body ← new_TokenRequest ;
    set_prop body "grant_type" (JsString "client_credentials") ;;
    url ← get_prop options "url" ;
    Logger_log Trace "ApiClient.getAccessTokenFromClientCredentials: Calling API"
      [("url", url); ("path", JsString path)] ;;
    promise ← new_Promise ;
    client_post client path body (getAccessTokenFromClientCredentials_callback promise) ;;
    mret promise).

(** ** The callbacks

    The transport calls [callback(err, req, res, obj)] from its own event
    handler, after the operation has returned its promise: an exception that
    leaves the callback is not caught by the promise.  [invoke cb err obj]
    is the body of the callback [cb]. *)

Section Callbacks.

(** [JSON.parse] of the runtime: the parsed value, with the objects it
    allocates, or nothing when the text is not JSON. *)
Variable JSON_parse_text : string -> Heap -> option (JsValue * Heap).

(** [JSON.parse(v)] *)
Definition JSON_parse (v : JsValue) : M JsValue := fun st =>
  match JSON_parse_text (ToString v) (heap st) with
  | Some (parsed, h) => (Ok parsed, mkState h (promises st) (requests st) (log st))
  | None => (Throw (SyntaxError_JSON (ToString v)), st)
  end.

Definition invoke (cb : Callback) (err obj : JsValue) : M unit :=
  match cb with
  | getApplication_callback promise =>
      if truthy err then
        Logger_log Error "ApiClient.getApplication: Error getting application."
          [("err", err)] ;;
        reject promise err
      else
        Logger_log Trace "ApiClient.getApplication: Application received."
          [("data", obj)] ;;
        resolve promise obj
  | getConfigObject_callback promise =>
      if truthy err then
        Logger_log Error "ApiClient.getConfigObject: Error getting configuration object."
          [("err", err)] ;;
        reject promise err
      else
        Logger_log Trace "ApiClient.getConfigObject: Configuration object wrapper received."
          [("data", obj)] ;;
        resolve promise obj
  | putConfigObject_callback promise parseResponse =>
      if truthy err then
        Logger_log Error "ApiClient.putConfigObject: Error writing data." [("err", err)] ;;
        reject promise err
      else
        obj ← (if parseResponse then JSON_parse obj else mret obj) ;
        Logger_log Trace "ApiClient.putConfigObject: Success response received."
          [("data", obj)] ;;
        resolve promise obj
  | getAccessTokenFromRefreshToken_callback promise =>
      if truthy err then
        Logger_log Error "ApiClient.getAccessTokenFromRefreshToken: Error getting access token."
          [("err", err)] ;;
        reject promise err
      else
        Logger_log Trace
          "ApiClient.getAccessTokenFromRefreshToken: Access token response received." [] ;;
        resolve promise obj
  | getAccessTokenFromClientCredentials_callback promise =>
      if truthy err then
        Logger_log Error
          "ApiClient.getAccessTokenFromClientCredentials: Error getting access token."
          [("err", err)] ;;
        reject promise err
      else
        Logger_log Trace
          "ApiClient.getAccessTokenFromClientCredentials: Access token response received." [] ;;
        resolve promise obj
  end.

End Callbacks.

(** ** The Options value, as a view of the heap *)

(** Modelled from the spec: the IOptions interface (src/types/ioptions.ts is
    not among the sources) has [url], [subscription], [application],
    [environment], [credentials] with [key] and [secret], and [tokens] with
    [accessToken] and [refreshToken].  The project compiles without strict
    null checks, so every slot may hold [undefined]; for the two nested
    objects that is [None] here. *)
Record Credentials : Type := mkCredentials {
  key : JsValue;
  secret : JsValue
}.

Record Tokens : Type := mkTokens {
  accessToken : JsValue;
  refreshToken : JsValue
}.

Record IOptions : Type := mkIOptions {
  url : JsValue;
  subscription : JsValue;
  application : JsValue;
  environment : JsValue;
  credentials : option Credentials;
  tokens : option Tokens
}.

Definition read_object (h : Heap) (v : JsValue) : option Props :=
  match v with
  | JsObject l => h !! l
  | _ => None
  end.

Definition read_Credentials (h : Heap) (v : JsValue) : option Credentials :=
  o ← read_object h v ;
  Some (mkCredentials (field o "key") (field o "secret")).

Definition read_Tokens (h : Heap) (v : JsValue) : option Tokens :=
  o ← read_object h v ;
  Some (mkTokens (field o "accessToken") (field o "refreshToken")).

(** The Options value that the object [v] represents in the heap [h]. *)
Definition read_IOptions (h : Heap) (v : JsValue) : option IOptions :=
  o ← read_object h v ;
  Some (mkIOptions (field o "url") (field o "subscription") (field o "application")
          (field o "environment")
          (read_Credentials h (field o "credentials"))
          (read_Tokens h (field o "tokens"))).

(** The headers of the client a request was issued with. *)
Definition request_headers (h : Heap) (r : Request) : option Props :=
  o ← read_object h (client_options (req_client r)) ;
  read_object h (field o "headers").

(** ** The five entry points as one type

    Used to state what holds of every operation of the client. *)

Inductive Call : Type :=
| call_getApplication (options : JsValue)
| call_getConfigObject (options objectId : JsValue)
| call_putConfigObject (options objectId body : JsValue)
| call_getAccessTokenFromRefreshToken (options : JsValue)
| call_getAccessTokenFromClientCredentials (options : JsValue).

Definition perform (c : Call) : M nat :=
  match c with
  | call_getApplication options => getApplication options
  | call_getConfigObject options objectId => getConfigObject options objectId
  | call_putConfigObject options objectId body => putConfigObject options objectId body
  | call_getAccessTokenFromRefreshToken options => getAccessTokenFromRefreshToken options
  | call_getAccessTokenFromClientCredentials options =>
      getAccessTokenFromClientCredentials options
  end.

Definition call_options (c : Call) : JsValue :=
  match c with
  | call_getApplication options
  | call_getConfigObject options _
  | call_putConfigObject options _ _
  | call_getAccessTokenFromRefreshToken options
  | call_getAccessTokenFromClientCredentials options => options
  end.

(** The closure each operation hands to the transport, for the promise [p]. *)
Definition callback_of (c : Call) (p : nat) : Callback :=
  match c with
  | call_getApplication _ => getApplication_callback p
  | call_getConfigObject _ _ => getConfigObject_callback p
  | call_putConfigObject _ _ body =>
      putConfigObject_callback p (String.eqb (typeof body) "string")
  | call_getAccessTokenFromRefreshToken _ => getAccessTokenFromRefreshToken_callback p
  | call_getAccessTokenFromClientCredentials _ =>
      getAccessTokenFromClientCredentials_callback p
  end.

(** [m] run on [st] returns a new pending promise and hands exactly one
    request, [r], to the transport; [st1] is the state it leaves. *)
Definition issues (m : M nat) (st : State) (r : Request) (st1 : State) : Prop :=
  m st = (Ok (length (promises st)), st1)
  /\ requests st1 = requests st ++ [r]
  /\ promises st1 = promises st ++ [Pending].

(** The paths of the requests that [m] hands to the transport from [st]. *)
Definition issued_paths (m : M nat) (st : State) : list string :=
  map req_path (drop (length (requests st)) (requests (m st).2)).

(** ** What the spec says the requests look like *)

(** [/{subscription}/applications/{application}] *)
Definition application_path (o : IOptions) : string :=
  "/" +:+ ToString (subscription o) +:+ "/applications/" +:+ ToString (application o).

(** [/{subscription}/configuration/{application}/{objectId}/{environment}] *)
Definition configuration_path (o : IOptions) (objectId : JsValue) : string :=
  "/" +:+ ToString (subscription o) +:+ "/configuration/" +:+ ToString (application o)
  +:+ "/" +:+ ToString objectId +:+ "/" +:+ ToString (environment o).

(** [Bearer <accessToken>] *)
Definition bearer_header (t : Tokens) : string :=
  "Bearer " +:+ ToString (accessToken t).

(** [Basic base64(key:secret)] *)
Definition basic_header (c : Credentials) : string :=
  "Basic " +:+ Buffer_toString_base64 (ToString (key c) +:+ ":" +:+ ToString (secret c)).

(** The auth-header rule of the spec: Basic for client-credentials
    acquisition only, Bearer for every other call; [None] when the Options
    value lacks the object the scheme reads. *)
Definition spec_authorization (c : Call) (o : IOptions) : option string :=
  match c with
  | call_getAccessTokenFromClientCredentials _ => basic_header <$> credentials o
  | _ => bearer_header <$> tokens o
  end.

(** A reference to an object that the heap does not hold. *)
Definition dangling (h : Heap) (v : JsValue) : Prop :=
  match v with
  | JsObject l => length h <= l
  | _ => False
  end.

(** ** A JSON reader for sample replies

    [JSON.parse] belongs to the runtime and stays a parameter of the
    callbacks.  To run them on sample replies, this reader covers a fragment
    of JSON: objects, strings without escapes, integers, [true], [false] and
    [null].  It is used below only on texts of that fragment and on texts
    that are not JSON at all. *)

Definition is_ws (c : ascii) : bool :=
  Ascii.eqb c " " || Ascii.eqb c "009" || Ascii.eqb c "010" || Ascii.eqb c "013".

Fixpoint skip_ws (s : list ascii) : list ascii :=
  match s with
  | c :: r => if is_ws c then skip_ws r else s
  | [] => []
  end.

Fixpoint strip_prefix (p s : list ascii) : option (list ascii) :=
  match p, s with
  | [], _ => Some s
  | a :: p', b :: s' => if Ascii.eqb a b then strip_prefix p' s' else None
  | _ :: _, [] => None
  end.

(** The characters of a string up to its closing quote. *)
Fixpoint scan_string (s : list ascii) : option (string * list ascii) :=
  match s with
  | [] => None
  | c :: r =>
      if Ascii.eqb c "034" then Some (EmptyString, r)
      else if Ascii.eqb c "\" || (N_of_ascii c <? 32)%N then None
      else '(t, r') ← scan_string r ; Some (String c t, r')
  end.

Definition is_digit (c : ascii) : bool :=
  ((48 <=? N_of_ascii c) && (N_of_ascii c <=? 57))%N.

Fixpoint scan_digits (s : list ascii) : list ascii * list ascii :=
  match s with
  | c :: r =>
      if is_digit c then let '(ds, r') := scan_digits r in (c :: ds, r') else ([], s)
  | [] => ([], [])
  end.

Definition digits_value (ds : list ascii) : Z :=
  fold_left (fun z c => (10 * z + (Z.of_N (N_of_ascii c) - 48))%Z) ds 0%Z.

Definition scan_integer (s : list ascii) : option (Z * list ascii) :=
  let '(negative, s) :=
    match s with
    | c :: r => if Ascii.eqb c "-" then (true, r) else (false, s)
    | [] => (false, s)
    end in
  let '(ds, r) := scan_digits s in
  let leading_zero :=
    match ds with
    | c :: _ :: _ => Ascii.eqb c "0"
    | _ => false
    end in
  let fraction :=
    match r with
    | c :: _ => Ascii.eqb c "." || Ascii.eqb c "e" || Ascii.eqb c "E"
    | [] => false
    end in
  match ds with
  | [] => None
  | _ :: _ =>
      if leading_zero || fraction then None
      else Some (if negative then (- digits_value ds)%Z else digits_value ds, r)
  end.

Fixpoint parse_value (fuel : nat) (s : list ascii) (h : Heap)
  : option (JsValue * list ascii * Heap) :=
  match fuel with
  | 0 => None
  | S fuel =>
      let s := skip_ws s in
      match strip_prefix (list_ascii_of_string "null") s with
      | Some r => Some (JsNull, r, h)
      | None =>
      match strip_prefix (list_ascii_of_string "true") s with
      | Some r => Some (JsBoolean true, r, h)
      | None =>
      match strip_prefix (list_ascii_of_string "false") s with
      | Some r => Some (JsBoolean false, r, h)
      | None =>
      match s with
      | [] => None
      | c :: r =>
          if Ascii.eqb c "034" then
            '(t, r') ← scan_string r ; Some (JsString t, r', h)
          else if Ascii.eqb c "{" then
            match skip_ws r with
            | [] => None
            | c' :: r' =>
                if Ascii.eqb c' "}" then Some (JsObject (length h), r', h ++ [∅])
                else parse_members fuel (c' :: r') ∅ h
            end
          else
            '(n, r') ← scan_integer s ; Some (JsNumber n, r', h)
      end end end end
  end
with parse_members (fuel : nat) (s : list ascii) (acc : Props) (h : Heap)
  : option (JsValue * list ascii * Heap) :=
  match fuel with
  | 0 => None
  | S fuel =>
      match s with
      | [] => None
      | q :: r =>
          if Ascii.eqb q "034" then
            '(k, r1) ← scan_string r ;
            match skip_ws r1 with
            | [] => None
            | colon :: r2 =>
                if Ascii.eqb colon ":" then
                  '(v, r3, h') ← parse_value fuel r2 h ;
                  match skip_ws r3 with
                  | [] => None
                  | d :: r4 =>
                      if Ascii.eqb d "," then
                        parse_members fuel (skip_ws r4) (<[k := v]> acc) h'
                      else if Ascii.eqb d "}" then
                        Some (JsObject (length h'), r4, h' ++ [<[k := v]> acc])
                      else None
                  end
                else None
            end
          else None
      end
  end.

Definition parse_json_fragment (text : string) (h : Heap) : option (JsValue * Heap) :=
  let s := list_ascii_of_string text in
  '(v, r, h') ← parse_value (2 * length s + 2) s h ;
  match skip_ws r with
  | [] => Some (v, h')
  | _ :: _ => None
  end.

(** ** Sample values *)

(** The Options value of the spec's end-to-end examples, with credentials
    and a refresh token added, stored as three objects. *)
Definition sample_heap : Heap :=
  [ {[ "key" := JsString "key"; "secret" := JsString "secret" ]};
    {[ "accessToken" := JsString "AT1"; "refreshToken" := JsString "RT1" ]};
    {[ "url" := JsString "https://api.example"; "subscription" := JsString "sub1";
       "application" := JsString "app1"; "environment" := JsString "prod";
       "credentials" := JsObject 0; "tokens" := JsObject 1 ]} ].

Definition sample_state : State := mkState sample_heap [] [] [].
Definition sample_options : JsValue := JsObject 2.

Definition sample_IOptions : IOptions :=
  mkIOptions (JsString "https://api.example") (JsString "sub1") (JsString "app1")
    (JsString "prod")
    (Some (mkCredentials (JsString "key") (JsString "secret")))
    (Some (mkTokens (JsString "AT1") (JsString "RT1"))).

(** An Options object on which [tokens] and [credentials] were never set. *)
Definition bare_state : State :=
  mkState
    [ {[ "url" := JsString "https://api.example"; "subscription" := JsString "sub1";
         "application" := JsString "app1"; "environment" := JsString "prod" ]} ]
    [] [] [].
Definition bare_options : JsValue := JsObject 0.

(** An Options value whose tokens and credentials objects are there but
    empty: [accessToken], [key] and [secret] are absent. *)
Definition hollow_state : State :=
  mkState
    [ ∅; ∅;
      {[ "url" := JsString "https://api.example"; "subscription" := JsString "sub1";
         "application" := JsString "app1"; "environment" := JsString "prod";
         "credentials" := JsObject 0; "tokens" := JsObject 1 ]} ]
    [] [] [].

(** The reply of the spec's end-to-end example of a raw-string write:
    [{"id":"raw-blob","value":"hello=world"}]. *)
Definition dq : string := String "034" EmptyString.
Definition sample_reply : string :=
  "{" +:+ dq +:+ "id" +:+ dq +:+ ":" +:+ dq +:+ "raw-blob" +:+ dq +:+ ","
  +:+ dq +:+ "value" +:+ dq +:+ ":" +:+ dq +:+ "hello=world" +:+ dq +:+ "}".

(** The two objects [getRestifyOptions] allocates, at [n] and [n + 1]: the
    restify options and their headers. *)
Definition restify_objects (n : loc) (url : JsValue) (authorization : string) : Heap :=
  [ <["headers" := JsObject (n + 1)]> {[ "url" := url; "version" := JsString "*" ]};
    {[ "authorization" := JsString authorization ]} ].

(** The promise whose [resolve] and [reject] a callback holds. *)
Definition callback_promise (cb : Callback) : nat :=
  match cb with
  | getApplication_callback p
  | getConfigObject_callback p
  | putConfigObject_callback p _
  | getAccessTokenFromRefreshToken_callback p
  | getAccessTokenFromClientCredentials_callback p => p
  end.

Inductive Scheme : Type := Basic | Bearer.

Fixpoint starts_with (p s : string) : bool :=
  match p with
  | EmptyString => true
  | String a p' =>
      match s with
      | EmptyString => false
      | String b s' => Ascii.eqb a b && starts_with p' s'
      end
  end.

(** The scheme an Authorization header value announces. *)
Definition header_scheme (v : string) : option Scheme :=
  if starts_with "Basic " v then Some Basic
  else if starts_with "Bearer " v then Some Bearer
  else None.

Definition is_client_credentials (c : Call) : bool :=
  match c with
  | call_getAccessTokenFromClientCredentials _ => true
  | _ => false
  end.

(** The verb each operation uses. *)
Definition call_verb (c : Call) : Verb :=
  match c with
  | call_getApplication _ | call_getConfigObject _ _ => GET
  | call_putConfigObject _ _ _ => PUT
  | call_getAccessTokenFromRefreshToken _
  | call_getAccessTokenFromClientCredentials _ => POST
  end.

(** The encoding of the client each operation creates. *)
Definition call_encoding (c : Call) : Encoding :=
  match c with
  | call_putConfigObject _ _ body =>
      if String.eqb (typeof body) "string" then StringClient else JsonClient
  | _ => JsonClient
  end.


(** * FileSystem (src/file-system.ts)

    The promise wrappers over node's [fs], the directory helper and the
    home-directory lookup.  The file system, [process.platform] and
    [process.env] are the world the code runs in; file names and data are
    strings, as the signatures say. *)

Module FileSystem.

(** The two callbacks of the source, as closures over their promise. *)
Inductive Callback : Type :=
| readFile_callback (promise : nat)
| writeFile_callback (promise : nat).

(** A call handed to [fs]: [fs.readFile(filename, encoding, cb)],
    [fs.writeFile(filename, data, encoding, cb)], and [fs.mkdir(path)],
    which the source calls without a callback. *)
Inductive FsCall : Type :=
| fs_readFile (filename encoding : string) (cb : Callback)
| fs_writeFile (filename data encoding : string) (cb : Callback)
| fs_mkdir (path : string).

Record World : Type := mkWorld {
  existsSync : string -> bool;
  platform : string;
  env : gmap string string;
  promises : list Settlement;
  calls : list FsCall;
  debug : list string
}.

(** None of the statements of this class throws: a state monad. *)
Definition FS (A : Type) : Type := World -> A * World.

#[global] Instance FS_ret : MRet FS := fun A a w => (a, w).

#[global] Instance FS_bind : MBind FS := fun A B k m w =>
  let '(a, w') := m w in k a w'.

(** Modelled from the spec: the diagnostics sink (src/logging/logger.ts is
    not among the sources) records the message and touches nothing else. *)
Definition Logger_debug (msg : string) : FS unit := fun w =>
  (tt, mkWorld (existsSync w) (platform w) (env w) (promises w) (calls w) (debug w ++ [msg])).

Definition new_Promise : FS nat := fun w =>
  (length (promises w),
   mkWorld (existsSync w) (platform w) (env w) (promises w ++ [Pending]) (calls w) (debug w)).

Definition settle (p : nat) (s : Settlement) : FS unit := fun w =>
  match promises w !! p with
  | Some Pending =>
      (tt, mkWorld (existsSync w) (platform w) (env w) (<[p := s]> (promises w))
             (calls w) (debug w))
  | _ => (tt, w)
  end.

Definition resolve (p : nat) (value : JsValue) : FS unit := settle p (Resolved value).
Definition reject (p : nat) (err : JsValue) : FS unit := settle p (Rejected (Handed err)).

(** A call handed to [fs]; its effect and its reply come later. *)
Definition fs (c : FsCall) : FS unit := fun w =>
  (tt, mkWorld (existsSync w) (platform w) (env w) (promises w) (calls w ++ [c]) (debug w)).

(** [FileSystem.readFile(filename)] *)
Definition readFile (filename : string) : FS nat :=
  Logger_debug ("FileSystem.readFile: reading '" +:+ filename +:+ "' from disk.") ;;
  promise ← new_Promise ;
  fs (fs_readFile filename "utf8" (readFile_callback promise)) ;;
  mret promise.

(** [FileSystem.writeFile(filename, data)] *)
Definition writeFile (filename data : string) : FS nat :=
  Logger_debug ("FileSystem.writeFile: writing '" +:+ filename +:+ "' to disk.") ;;
  promise ← new_Promise ;
  fs (fs_writeFile filename data "utf8" (writeFile_callback promise)) ;;
  mret promise.

(** The bodies of the two callbacks: [function(err, data)] of [readFile]
    and [function(err)] of [writeFile], which calls [resolve()] with nothing. *)
Definition invoke (cb : Callback) (err data : JsValue) : FS unit :=
  match cb with
  | readFile_callback promise =>
      if truthy err then reject promise err
      else
        Logger_debug "FileSystem.readFile: resolving promise." ;;
        resolve promise data
  | writeFile_callback promise =>
      if truthy err then reject promise err
      else
        Logger_debug "FileSystem.writeFile: resolving promise." ;;
        resolve promise JsUndefined
  end.

(** [FileSystem.ensureDirectory(path)] *)
Definition ensureDirectory (path : string) : FS unit :=
  Logger_debug "FileSystem.ensureDirectory: start." ;;
  (fun w =>
     if negb (existsSync w path) then
       (Logger_debug ("FileSystem.ensureDirectory: creating local folder '" +:+ path +:+ "'.") ;;
        fs (fs_mkdir path)) w
     else (tt, w)) ;;
  Logger_debug "FileSystem.ensureDirectory: end.".

(** [FileSystem.getPlatform()] *)
Definition getPlatform : FS string := fun w => (platform w, w).

(** [process.env.NAME]: the value, or [undefined] when the variable is
    not set. *)
Definition process_env (name : string) : FS JsValue := fun w =>
  (from_option JsString JsUndefined (env w !! name), w).

(** [FileSystem.getUserHome()] *)
Definition getUserHome : FS JsValue :=
  Logger_debug "FileSystem.getUserHome: start." ;;
  p ← getPlatform ;
  if String.eqb p "win32" then
    Logger_debug "FileSystem.getUserHome: returning win32 home directory." ;;
    process_env "USERPROFILE"
  else
    Logger_debug "FileSystem.getUserHome: returning default home directory." ;;
    process_env "HOME".

Definition callback_promise (cb : Callback) : nat :=
  match cb with
  | readFile_callback p | writeFile_callback p => p
  end.

(** A sample world: Linux, with HOME set. *)
Definition sample_world : World :=
  mkWorld (fun path => String.eqb path "/home/cloco") "linux"
    {[ "HOME" := "/home/cloco"; "USERPROFILE" := "C:\Users\cloco" ]} [] [] [].

End FileSystem.

(** * Properties *)

(** ** Reading the heap *)

Lemma read_object_inv h v po :
  read_object h v = Some po -> exists l, v = JsObject l /\ h !! l = Some po.
Proof. destruct v; simpl; try discriminate. eauto. Qed.

Lemma read_IOptions_inv h v o :
  read_IOptions h v = Some o ->
  exists l po,
    v = JsObject l /\ h !! l = Some po
    /\ url o = field po "url" /\ subscription o = field po "subscription"
    /\ application o = field po "application" /\ environment o = field po "environment"
    /\ credentials o = read_Credentials h (field po "credentials")
    /\ tokens o = read_Tokens h (field po "tokens").
Proof.
  unfold read_IOptions. destruct (read_object h v) as [po|] eqn:E; [|discriminate].
  apply read_object_inv in E as (l & -> & Hl). intros [= <-].
  exists l, po. repeat split; assumption || reflexivity.
Qed.

Lemma read_Tokens_inv h v t :
  read_Tokens h v = Some t ->
  exists lt pt,
    v = JsObject lt /\ h !! lt = Some pt
    /\ accessToken t = field pt "accessToken" /\ refreshToken t = field pt "refreshToken".
Proof.
  unfold read_Tokens. destruct (read_object h v) as [pt|] eqn:E; [|discriminate].
  apply read_object_inv in E as (l & -> & Hl). intros [= <-].
  exists l, pt. repeat split; assumption || reflexivity.
Qed.

Lemma read_Credentials_inv h v c :
  read_Credentials h v = Some c ->
  exists lc pc,
    v = JsObject lc /\ h !! lc = Some pc
    /\ key c = field pc "key" /\ secret c = field pc "secret".
Proof.
  unfold read_Credentials. destruct (read_object h v) as [pc|] eqn:E; [|discriminate].
  apply read_object_inv in E as (l & -> & Hl). intros [= <-].
  exists l, pc. repeat split; assumption || reflexivity.
Qed.

Lemma alter_ext {A} (f : A -> A) (h ext : list A) (k : nat) :
  alter f (length h + k) (h ++ ext) = h ++ alter f k ext.
Proof. apply alter_app_r. Qed.

Lemma alter_ext0 {A} (f : A -> A) (h ext : list A) :
  alter f (length h) (h ++ ext) = h ++ alter f 0 ext.
Proof. rewrite <- (Nat.add_0_r (length h)) at 1. apply alter_app_r. Qed.

Lemma lookup_ext {A} (h ext : list A) (k : nat) :
  (h ++ ext) !! (length h + k) = ext !! k.
Proof. rewrite lookup_app_r by lia. f_equal. lia. Qed.

Lemma lookup_ext0 {A} (h ext : list A) :
  (h ++ ext) !! length h = ext !! 0.
Proof. rewrite <- (Nat.add_0_r (length h)) at 1. apply lookup_ext. Qed.

(** ** Running the statements on a symbolic state *)

Ltac exec :=
  cbv beta iota zeta delta
    [mbind mret M_bind M_ret Logger_log get_prop set_prop new_object with_heap throw
     heap promises requests log createJsonClient createStringClient send
     client_get client_put client_post new_Promise new_TokenRequest async
     settle resolve reject].

Ltac heap_norm :=
  repeat first
    [ rewrite <- !app_assoc
    | rewrite !length_app
    | rewrite !alter_ext
    | rewrite !alter_ext0
    | progress cbn [app length alter list_alter Nat.add] ].

Ltac heap_read :=
  repeat first
    [ erewrite lookup_app_l_Some by eassumption
    | match goal with H : _ !! _ = Some _ |- _ => rewrite H end ].

Ltac field_read :=
  repeat match goal with
  | H : field ?o ?n = JsObject _ |- context [ field ?o ?n ] => rewrite H
  end.

Ltac run :=
  repeat (exec; heap_norm; heap_read; cbn [from_option id]; field_read).

Ltac split_read :=
  match goal with
  | |- context [ match ?v with JsUndefined => _ | _ => _ end ] =>
      let E := fresh "E" in destruct v eqn:E
  end.

Ltac unfold_client :=
  unfold getApplication, getConfigObject, putConfigObject,
    getAccessTokenFromRefreshToken, getAccessTokenFromClientCredentials,
    getRestifyOptions;
  try replace (strict_eq JsUndefined (JsString "basic")) with false by reflexivity;
  try replace (strict_eq (JsString "basic") (JsString "basic")) with true by reflexivity.

(** From an Options value with its tokens (or credentials) object, the
    facts about the heap that the reads of the client go through. *)
Ltac open_view :=
  cbn [url subscription application environment credentials tokens
       accessToken refreshToken key secret] in *.

Ltac open_options Ho :=
  let l := fresh "l" in let po := fresh "po" in let Hl := fresh "Hl" in
  apply read_IOptions_inv in Ho as (l & po & -> & Hl & ? & ? & ? & ? & ? & ?);
  open_view.

Ltac open_tokens Ho Ht :=
  let lt := fresh "lt" in let pt := fresh "pt" in
  let Hlt := fresh "Hlt" in let Htok := fresh "Htok" in
  open_options Ho; rewrite Ht in *;
  match goal with
  | H : Some _ = read_Tokens _ _ |- _ =>
      symmetry in H; apply read_Tokens_inv in H as (lt & pt & Htok & Hlt & ? & ?)
  end;
  open_view; subst.

Ltac open_credentials Ho Hc :=
  let lc := fresh "lc" in let pc := fresh "pc" in
  let Hlc := fresh "Hlc" in let Hcred := fresh "Hcred" in
  open_options Ho; rewrite Hc in *;
  match goal with
  | H : Some _ = read_Credentials _ _ |- _ =>
      symmetry in H; apply read_Credentials_inv in H as (lc & pc & Hcred & Hlc & ? & ?)
  end;
  open_view; subst.

Ltac start st o :=
  destruct st as [h ps rs lg]; destruct o as [? ? ? ? ? ?];
  cbn [heap promises requests log] in *.

Ltac issued :=
  eexists; split; [split; [reflexivity | split; reflexivity] | reflexivity].

Lemma getApplication_run st options o t :
  read_IOptions (heap st) options = Some o -> tokens o = Some t ->
  exists st1,
    issues (getApplication options) st
      (mkRequest (mkClient JsonClient (JsObject (length (heap st)))) GET
         (application_path o) None (getApplication_callback (length (promises st))))
      st1
    /\ heap st1 = heap st ++ restify_objects (length (heap st)) (url o) (bearer_header t).
Proof.
  intros Ho Ht. start st o. destruct t. open_tokens Ho Ht.
  unfold issues, application_path, bearer_header, restify_objects.
  unfold_client. run. issued.
Qed.

Lemma getConfigObject_run st options objectId o t :
  read_IOptions (heap st) options = Some o -> tokens o = Some t ->
  exists st1,
    issues (getConfigObject options objectId) st
      (mkRequest (mkClient JsonClient (JsObject (length (heap st)))) GET
         (configuration_path o objectId) None
         (getConfigObject_callback (length (promises st))))
      st1
    /\ heap st1 = heap st ++ restify_objects (length (heap st)) (url o) (bearer_header t).
Proof.
  intros Ho Ht. start st o. destruct t. open_tokens Ho Ht.
  unfold issues, configuration_path, bearer_header, restify_objects.
  unfold_client. run. issued.
Qed.

Lemma putConfigObject_run st options objectId body o t :
  read_IOptions (heap st) options = Some o -> tokens o = Some t ->
  exists st1,
    issues (putConfigObject options objectId body) st
      (mkRequest
         (mkClient (if String.eqb (typeof body) "string" then StringClient else JsonClient)
            (JsObject (length (heap st))))
         PUT (configuration_path o objectId) (Some body)
         (putConfigObject_callback (length (promises st))
            (String.eqb (typeof body) "string")))
      st1
    /\ heap st1 = heap st ++ restify_objects (length (heap st)) (url o) (bearer_header t).
Proof.
  intros Ho Ht. start st o. destruct t. open_tokens Ho Ht.
  unfold issues, configuration_path, bearer_header, restify_objects.
  unfold_client. destruct (String.eqb (typeof body) "string"); run; issued.
Qed.

Lemma getAccessTokenFromRefreshToken_run st options o t :
  read_IOptions (heap st) options = Some o -> tokens o = Some t ->
  exists st1,
    issues (getAccessTokenFromRefreshToken options) st
      (mkRequest (mkClient JsonClient (JsObject (length (heap st)))) POST
         "/oauth/token" (Some (JsObject (length (heap st) + 2)))
         (getAccessTokenFromRefreshToken_callback (length (promises st))))
      st1
    /\ heap st1 =
         heap st ++ restify_objects (length (heap st)) (url o) (bearer_header t)
           ++ [ {[ "grant_type" := JsString "refresh_token";
                   "refresh_token" := refreshToken t ]} ].
Proof.
  intros Ho Ht. start st o. destruct t. open_tokens Ho Ht.
  unfold issues, bearer_header, restify_objects.
  unfold_client. run. issued.
Qed.

Lemma getAccessTokenFromClientCredentials_run st options o c :
  read_IOptions (heap st) options = Some o -> credentials o = Some c ->
  exists st1,
    issues (getAccessTokenFromClientCredentials options) st
      (mkRequest (mkClient JsonClient (JsObject (length (heap st)))) POST
         "/oauth/token" (Some (JsObject (length (heap st) + 2)))
         (getAccessTokenFromClientCredentials_callback (length (promises st))))
      st1
    /\ heap st1 =
         heap st ++ restify_objects (length (heap st)) (url o) (basic_header c)
           ++ [ {[ "grant_type" := JsString "client_credentials" ]} ].
Proof.
  intros Ho Hc. start st o. destruct c. open_credentials Ho Hc.
  unfold issues, basic_header, restify_objects.
  unfold_client. run. issued.
Qed.

(** ** What a call leaves behind, whatever the Options value *)

Lemma grows_refl {A} (h : list A) : exists ext, h = h ++ ext.
Proof. exists []. by rewrite app_nil_r. Qed.

Lemma grows_app {A} (h x y : list A) :
  (exists ext, x = h ++ ext) -> exists ext, x ++ y = h ++ ext.
Proof. intros (ext & ->). exists (ext ++ y). by rewrite app_assoc. Qed.

Lemma grows_alter {A} (f : A -> A) (h x : list A) (k : nat) :
  length h <= k -> (exists ext, x = h ++ ext) -> exists ext, alter f k x = h ++ ext.
Proof. intros Hk (ext & ->). eexists. by apply alter_app_r_alt. Qed.

Ltac grows :=
  repeat first
    [ apply grows_refl
    | apply grows_app
    | apply grows_alter; [rewrite ?length_alter, ?length_app; cbn [length]; lia|] ].

Ltac outcome_done :=
  eexists; split; [reflexivity|]; cbn [heap promises requests]; split;
    [ grows
    | first [ left; split; [reflexivity | eexists; reflexivity]
            | right; eexists; repeat split; reflexivity ] ].

(** Every call returns a new promise and only adds objects to the heap.
    Either it throws before it reaches the transport, and the promise is
    rejected with the exception, or it hands one request to the transport
    and the promise is pending. *)
Lemma perform_outcome c st :
  exists st1,
    perform c st = (Ok (length (promises st)), st1)
    /\ (exists ext, heap st1 = heap st ++ ext)
    /\ ((requests st1 = requests st
         /\ exists e, promises st1 = promises st ++ [Rejected (Raised e)])
        \/ (exists r, requests st1 = requests st ++ [r]
            /\ promises st1 = promises st ++ [Pending]
            /\ req_callback r = callback_of c (length (promises st)))).
Proof.
  destruct st as [h ps rs lg].
  destruct c as [o|o i|o i b|o|o]; cbn [perform callback_of heap promises requests];
    unfold_client;
    try destruct (String.eqb (typeof b) "string");
    destruct o; exec; repeat (split_read; exec); outcome_done.
Qed.

Lemma configuration_paths_agree st options objectId body :
  issued_paths (putConfigObject options objectId body) st
  = issued_paths (getConfigObject options objectId) st.
Proof.
  destruct st as [h ps rs lg]. unfold issued_paths. cbn [requests].
  unfold_client.
  destruct (String.eqb (typeof body) "string");
    destruct options; exec; repeat (split_read; exec); cbn [snd requests];
    rewrite ?drop_app_length; reflexivity.
Qed.

(** Without the tokens object a Bearer call throws on
    [options.tokens.accessToken]: the promise is rejected with the
    TypeError and nothing reaches the transport. *)
Lemma bearer_call_without_tokens c st l po :
  is_client_credentials c = false ->
  call_options c = JsObject l ->
  heap st !! l = Some po ->
  field po "tokens" = JsUndefined ->
  exists st1,
    perform c st = (Ok (length (promises st)), st1)
    /\ requests st1 = requests st
    /\ promises st1
       = promises st ++ [Rejected (Raised (TypeError_cannot_read JsUndefined "accessToken"))].
Proof.
  intros Hc Ho Hl Ht. destruct st as [h ps rs lg].
  destruct c as [o|o i|o i b|o|o]; try discriminate;
    cbn [perform call_options heap promises requests] in *; subst;
    unfold_client; try destruct (String.eqb (typeof b) "string");
    exec; heap_norm; heap_read; cbn [from_option id]; rewrite Ht; exec;
    eexists; repeat split.
Qed.

(** Likewise the Basic call without the credentials object. *)
Lemma basic_call_without_credentials st l po :
  heap st !! l = Some po ->
  field po "credentials" = JsUndefined ->
  exists st1,
    getAccessTokenFromClientCredentials (JsObject l) st = (Ok (length (promises st)), st1)
    /\ requests st1 = requests st
    /\ promises st1
       = promises st ++ [Rejected (Raised (TypeError_cannot_read JsUndefined "key"))].
Proof.
  intros Hl Hc. destruct st as [h ps rs lg]. cbn [heap promises requests] in *.
  unfold_client. exec. heap_norm. heap_read. cbn [from_option id].
  rewrite Hc. exec. eexists; repeat split.
Qed.

(** ** The callbacks *)

Section Callback_facts.

Variable JSON_parse_text : string -> Heap -> option (JsValue * Heap).

Lemma invoke_error cb err obj st :
  truthy err = true ->
  promises st !! callback_promise cb = Some Pending ->
  exists lg,
    invoke JSON_parse_text cb err obj st
    = (Ok tt,
       mkState (heap st)
         (<[callback_promise cb := Rejected (Handed err)]> (promises st))
         (requests st) (log st ++ lg)).
Proof.
  intros He Hp. destruct st as [h ps rs lg].
  destruct cb; cbn [invoke callback_promise heap promises requests log] in *;
    rewrite He; exec; rewrite Hp; eexists; reflexivity.
Qed.

Lemma invoke_success cb err obj st :
  truthy err = false ->
  cb <> putConfigObject_callback (callback_promise cb) true ->
  promises st !! callback_promise cb = Some Pending ->
  exists lg,
    invoke JSON_parse_text cb err obj st
    = (Ok tt,
       mkState (heap st)
         (<[callback_promise cb := Resolved obj]> (promises st))
         (requests st) (log st ++ lg)).
Proof.
  intros He Hcb Hp. destruct st as [h ps rs lg].
  destruct cb as [p|p|p [|]|p|p];
    cbn [invoke callback_promise heap promises requests log] in *;
    try (exfalso; apply Hcb; reflexivity);
    rewrite He; exec; rewrite Hp; eexists; reflexivity.
Qed.

Lemma invoke_parsed p err obj st parsed h2 :
  truthy err = false ->
  promises st !! p = Some Pending ->
  JSON_parse_text (ToString obj) (heap st) = Some (parsed, h2) ->
  exists lg,
    invoke JSON_parse_text (putConfigObject_callback p true) err obj st
    = (Ok tt,
       mkState h2 (<[p := Resolved parsed]> (promises st)) (requests st) (log st ++ lg)).
Proof.
  intros He Hp Hj. destruct st as [h ps rs lg].
  cbn [invoke heap promises requests log] in *. rewrite He.
  unfold JSON_parse. exec. rewrite Hj. exec. rewrite Hp. eexists; reflexivity.
Qed.

Lemma invoke_not_parsed p err obj st :
  truthy err = false ->
  JSON_parse_text (ToString obj) (heap st) = None ->
  invoke JSON_parse_text (putConfigObject_callback p true) err obj st
  = (Throw (SyntaxError_JSON (ToString obj)), st).
Proof.
  intros He Hj. destruct st as [h ps rs lg].
  cbn [invoke heap promises requests log] in *. rewrite He.
  unfold JSON_parse. exec. rewrite Hj. reflexivity.
Qed.

(** The callbacks write to the heap only through [JSON.parse]. *)
Lemma invoke_heap cb err obj st :
  heap (invoke JSON_parse_text cb err obj st).2 = heap st
  \/ exists parsed,
       JSON_parse_text (ToString obj) (heap st)
       = Some (parsed, heap (invoke JSON_parse_text cb err obj st).2).
Proof.
  destruct st as [h ps rs lg].
  destruct cb as [p|p|p [|]|p|p]; cbn [invoke];
    destruct (truthy err); unfold JSON_parse; exec;
    try destruct (JSON_parse_text (ToString obj) h) as [[parsed h2]|] eqn:Hj;
    exec; destruct (ps !! p) as [[| |]|]; cbn [snd heap]; eauto.
Qed.

End Callback_facts.

Lemma settled_lookup (ps : list Settlement) p s :
  ps !! p = Some Pending -> <[p := s]> ps !! p = Some s.
Proof. intros H. apply list_lookup_insert_eq. eapply lookup_lt_Some, H. Qed.

(** ** The headers a request goes out with *)

Lemma request_headers_restify h1 h url a ext r :
  h1 = h ++ restify_objects (length h) url a ++ ext ->
  client_options (req_client r) = JsObject (length h) ->
  request_headers h1 r = Some {[ "authorization" := JsString a ]}.
Proof.
  intros -> Hr. unfold request_headers, restify_objects. rewrite Hr. cbn [read_object].
  rewrite lookup_ext0. cbn [lookup list_lookup app mbind option_bind].
  unfold field. rewrite lookup_insert_eq. cbn [from_option id read_object].
  rewrite lookup_ext. reflexivity.
Qed.

Lemma request_headers_restify0 h1 h url a r :
  h1 = h ++ restify_objects (length h) url a ->
  client_options (req_client r) = JsObject (length h) ->
  request_headers h1 r = Some {[ "authorization" := JsString a ]}.
Proof.
  intros -> Hr. apply (request_headers_restify _ h url a []); [|exact Hr].
  by rewrite app_nil_r.
Qed.

(** ** Objects that were there before a call *)

Lemma read_nested_extend (h ext : Heap) (v : JsValue) :
  ~ dangling h v -> read_object (h ++ ext) v = read_object h v.
Proof.
  destruct v; cbn [read_object dangling]; try reflexivity.
  intros Hl. apply lookup_app_l. lia.
Qed.

Lemma read_IOptions_extend (h ext : Heap) l po :
  h !! l = Some po ->
  ~ dangling h (field po "credentials") ->
  ~ dangling h (field po "tokens") ->
  read_IOptions (h ++ ext) (JsObject l) = read_IOptions h (JsObject l).
Proof.
  intros Hl Hc Ht. unfold read_IOptions, read_Credentials, read_Tokens.
  cbn [read_object]. rewrite (lookup_app_l_Some _ _ _ _ Hl), Hl.
  cbn [mbind option_bind]. by rewrite !read_nested_extend.
Qed.

Lemma header_scheme_basic c : header_scheme (basic_header c) = Some Basic.
Proof. reflexivity. Qed.

Lemma header_scheme_bearer t : header_scheme (bearer_header t) = Some Bearer.
Proof. reflexivity. Qed.

Example base64_key_secret : Buffer_toString_base64 "key:secret" = "a2V5OnNlY3JldA==".
Proof. reflexivity. Qed.

Example base64_padding :
  Buffer_toString_base64 "f" = "Zg==" /\ Buffer_toString_base64 "fo" = "Zm8="
  /\ Buffer_toString_base64 "foo" = "Zm9v" /\ Buffer_toString_base64 "foobar" = "Zm9vYmFy".
Proof. repeat split; reflexivity. Qed.

(** ** The claims of the specification *)

(** C1.  [putConfigObject(options, objectId, body)], on an Options value
    that holds its tokens object, issues one PUT of [body].  When
    [typeof body === "string"] the client is a string client, and on success
    the callback parses the reply with [JSON.parse] and resolves the promise
    with the parsed value.  For every other body the client is a JSON client
    and the promise is resolved with the object the transport decoded,
    unchanged. *)
Theorem putConfigObject_encoding
    (JSON_parse_text : string -> Heap -> option (JsValue * Heap))
    st options objectId body o t :
  read_IOptions (heap st) options = Some o ->
  tokens o = Some t ->
  exists r st1,
    issues (putConfigObject options objectId body) st r st1
    /\ req_verb r = PUT /\ req_body r = Some body
    /\ (typeof body = "string" ->
        encoding (req_client r) = StringClient
        /\ forall err obj st2 parsed h2,
             truthy err = false ->
             promises st2 !! length (promises st) = Some Pending ->
             JSON_parse_text (ToString obj) (heap st2) = Some (parsed, h2) ->
             exists st3,
               invoke JSON_parse_text (req_callback r) err obj st2 = (Ok tt, st3)
               /\ promises st3 !! length (promises st) = Some (Resolved parsed)
               /\ heap st3 = h2)
    /\ (typeof body <> "string" ->
        encoding (req_client r) = JsonClient
        /\ forall err obj st2,
             truthy err = false ->
             promises st2 !! length (promises st) = Some Pending ->
             exists st3,
               invoke JSON_parse_text (req_callback r) err obj st2 = (Ok tt, st3)
               /\ promises st3 !! length (promises st) = Some (Resolved obj)
               /\ heap st3 = heap st2).
Proof.
  intros Ho Ht.
  destruct (putConfigObject_run st options objectId body o t Ho Ht) as (st1 & Hi & _).
  eexists _, st1. split; [exact Hi|]. cbn [req_verb req_body req_client req_callback encoding].
  repeat split.
  - rewrite H. reflexivity.
  - intros err obj st2 parsed h2 He Hp Hj. rewrite H. cbn [String.eqb Ascii.eqb Bool.eqb].
    destruct (invoke_parsed JSON_parse_text _ err obj st2 parsed h2 He Hp Hj) as (lg & ->).
    eexists. split; [reflexivity|]. cbn [promises heap]. split; [|reflexivity].
    apply settled_lookup, Hp.
  - apply String.eqb_neq in H. rewrite H. reflexivity.
  - intros err obj st2 He Hp. apply String.eqb_neq in H. rewrite H.
    destruct (invoke_success JSON_parse_text
                (putConfigObject_callback (length (promises st)) false) err obj st2 He)
      as (lg & ->); [discriminate | exact Hp |].
    eexists. split; [reflexivity|]. cbn [promises heap callback_promise].
    split; [|reflexivity]. apply settled_lookup, Hp.
Qed.

(** The reader on the sample reply: the object of the spec's example. *)
Lemma sample_reply_parsed :
  parse_json_fragment sample_reply sample_heap
  = Some (JsObject 3,
          sample_heap ++ [ {[ "id" := JsString "raw-blob"; "value" := JsString "hello=world" ]} ]).
Proof. reflexivity. Qed.

(** The spec's end-to-end example of a raw-string write. *)
Lemma putConfigObject_encoding_witness :
  read_IOptions (heap sample_state) sample_options = Some sample_IOptions
  /\ exists r st1,
       issues (putConfigObject sample_options (JsString "raw-blob") (JsString "hello=world"))
         sample_state r st1
       /\ encoding (req_client r) = StringClient
       /\ exists st3,
            invoke parse_json_fragment (req_callback r) JsNull (JsString sample_reply)
              (mkState sample_heap [Pending] [] [])
            = (Ok tt, st3)
            /\ promises st3 !! 0 = Some (Resolved (JsObject 3))
            /\ heap st3
               = sample_heap
                 ++ [ {[ "id" := JsString "raw-blob"; "value" := JsString "hello=world" ]} ].
Proof.
  split; [reflexivity|].
  destruct (putConfigObject_encoding parse_json_fragment sample_state sample_options
              (JsString "raw-blob") (JsString "hello=world") sample_IOptions
              (mkTokens (JsString "AT1") (JsString "RT1")) eq_refl eq_refl)
    as (r & st1 & Hi & _ & _ & Hs & _).
  destruct (Hs eq_refl) as (He & Hcb).
  exists r, st1. split; [exact Hi|]. split; [exact He|].
  exact (Hcb JsNull (JsString sample_reply) (mkState sample_heap [Pending] [] [])
           (JsObject 3) _ eq_refl eq_refl sample_reply_parsed).
Defined.

(** C2, at a failing input.  A raw-string write whose reply is the text
    [saved]: the transport reports success, [JSON.parse] throws inside the
    callback, and the exception leaves the callback with the state as it
    was.  Neither [resolve] nor [reject] has run: the promise stays pending,
    and the caller gets no DecodeFailure. *)
Theorem putConfigObject_malformed_reply :
  exists r st1,
    issues (putConfigObject sample_options (JsString "raw-blob") (JsString "hello=world"))
      sample_state r st1
    /\ invoke parse_json_fragment (req_callback r) JsNull (JsString "saved") st1
       = (Throw (SyntaxError_JSON "saved"), st1)
    /\ promises st1 = [Pending].
Proof.
  destruct (putConfigObject_run sample_state sample_options (JsString "raw-blob")
              (JsString "hello=world") sample_IOptions
              (mkTokens (JsString "AT1") (JsString "RT1")) eq_refl eq_refl)
    as (st1 & Hi & Hh).
  eexists _, st1. split; [exact Hi|]. split.
  - cbn [req_callback typeof String.eqb Ascii.eqb Bool.eqb].
    apply invoke_not_parsed; [reflexivity|]. rewrite Hh. reflexivity.
  - destruct Hi as (_ & _ & ->). reflexivity.
Qed.

(** C3.  On an Options value with a non-empty access token,
    [getApplication] issues a GET to [/{subscription}/applications/{application}]
    and [getConfigObject(options, objectId)] a GET to
    [/{subscription}/configuration/{application}/{objectId}/{environment}],
    both through a JSON client whose only header is
    [authorization: Bearer <accessToken>], and the promise is resolved with
    the body the transport decoded. *)
Theorem get_requests st options objectId o t token :
  read_IOptions (heap st) options = Some o ->
  tokens o = Some t ->
  accessToken t = JsString token ->
  token <> EmptyString ->
  (exists r st1,
     issues (getApplication options) st r st1
     /\ req_verb r = GET /\ req_path r = application_path o /\ req_body r = None
     /\ encoding (req_client r) = JsonClient
     /\ request_headers (heap st1) r
        = Some {[ "authorization" := JsString ("Bearer " +:+ token) ]}
     /\ forall JSON_parse_text err obj st2,
          truthy err = false ->
          promises st2 !! length (promises st) = Some Pending ->
          exists st3,
            invoke JSON_parse_text (req_callback r) err obj st2 = (Ok tt, st3)
            /\ promises st3 !! length (promises st) = Some (Resolved obj))
  /\ (exists r st1,
        issues (getConfigObject options objectId) st r st1
        /\ req_verb r = GET /\ req_path r = configuration_path o objectId
        /\ req_body r = None
        /\ encoding (req_client r) = JsonClient
        /\ request_headers (heap st1) r
           = Some {[ "authorization" := JsString ("Bearer " +:+ token) ]}
        /\ forall JSON_parse_text err obj st2,
             truthy err = false ->
             promises st2 !! length (promises st) = Some Pending ->
             exists st3,
               invoke JSON_parse_text (req_callback r) err obj st2 = (Ok tt, st3)
               /\ promises st3 !! length (promises st) = Some (Resolved obj)).
Proof.
  intros Ho Ht Hat _.
  assert (bearer_header t = "Bearer " +:+ token) as Hb
    by (unfold bearer_header; rewrite Hat; reflexivity).
  split.
  - destruct (getApplication_run st options o t Ho Ht) as (st1 & Hi & Hh).
    rewrite Hb in Hh. eexists _, st1. split; [exact Hi|].
    cbn [req_verb req_path req_body req_client req_callback encoding].
    repeat split.
    + eapply request_headers_restify0; [exact Hh | reflexivity].
    + intros J err obj st2 He Hp.
      destruct (invoke_success J (getApplication_callback (length (promises st)))
                  err obj st2 He) as (lg & ->); [discriminate | exact Hp |].
      eexists. split; [reflexivity|]. apply settled_lookup, Hp.
  - destruct (getConfigObject_run st options objectId o t Ho Ht) as (st1 & Hi & Hh).
    rewrite Hb in Hh. eexists _, st1. split; [exact Hi|].
    cbn [req_verb req_path req_body req_client req_callback encoding].
    repeat split.
    + eapply request_headers_restify0; [exact Hh | reflexivity].
    + intros J err obj st2 He Hp.
      destruct (invoke_success J (getConfigObject_callback (length (promises st)))
                  err obj st2 He) as (lg & ->); [discriminate | exact Hp |].
      eexists. split; [reflexivity|]. apply settled_lookup, Hp.
Qed.

(** The spec's end-to-end example: [fetchConfigObject(options, "feature-flags")]
    issues [GET /sub1/configuration/app1/feature-flags/prod] with the header
    [Bearer AT1]. *)
Lemma get_requests_witness :
  read_IOptions (heap sample_state) sample_options = Some sample_IOptions
  /\ exists r st1,
       issues (getConfigObject sample_options (JsString "feature-flags")) sample_state r st1
       /\ req_verb r = GET
       /\ req_path r = "/sub1/configuration/app1/feature-flags/prod"
       /\ request_headers (heap st1) r = Some {[ "authorization" := JsString "Bearer AT1" ]}.
Proof.
  split; [reflexivity|].
  destruct (get_requests sample_state sample_options (JsString "feature-flags")
              sample_IOptions (mkTokens (JsString "AT1") (JsString "RT1")) "AT1"
              eq_refl eq_refl eq_refl ltac:(discriminate))
    as (_ & r & st1 & Hi & Hv & Hp & _ & _ & Hh & _).
  exists r, st1. split; [exact Hi|]. split; [exact Hv|]. split; [exact Hp|]. exact Hh.
Defined.

Example getApplication_sample :
  map req_path (requests (getApplication sample_options sample_state).2)
  = ["/sub1/applications/app1"].
Proof. reflexivity. Qed.

(** C4.  [getAccessTokenFromClientCredentials], on an Options value that
    holds its credentials object, issues a POST to [/oauth/token] whose body
    has [grant_type = "client_credentials"] and no [refresh_token] property,
    through a client whose only header is [Basic base64(key:secret)]. *)
Theorem client_credentials_request st options o c :
  read_IOptions (heap st) options = Some o ->
  credentials o = Some c ->
  exists r st1 b props,
    issues (getAccessTokenFromClientCredentials options) st r st1
    /\ req_verb r = POST /\ req_path r = "/oauth/token"
    /\ req_body r = Some b /\ read_object (heap st1) b = Some props
    /\ props !! "grant_type" = Some (JsString "client_credentials")
    /\ props !! "refresh_token" = None
    /\ request_headers (heap st1) r
       = Some {[ "authorization" :=
                   JsString ("Basic " +:+ Buffer_toString_base64
                                            (ToString (key c) +:+ ":" +:+ ToString (secret c))) ]}.
Proof.
  intros Ho Hc.
  destruct (getAccessTokenFromClientCredentials_run st options o c Ho Hc)
    as (st1 & Hi & Hh).
  eexists _, st1, _, _. split; [exact Hi|].
  cbn [req_verb req_path req_body req_client].
  split; [reflexivity|]. split; [reflexivity|]. split; [reflexivity|].
  split; [|split; [|split]].
  - rewrite Hh. cbn [read_object]. rewrite lookup_ext. reflexivity.
  - reflexivity.
  - reflexivity.
  - eapply request_headers_restify; [exact Hh | reflexivity].
Qed.

Lemma client_credentials_request_witness :
  read_IOptions (heap sample_state) sample_options = Some sample_IOptions
  /\ exists r st1,
       issues (getAccessTokenFromClientCredentials sample_options) sample_state r st1
       /\ request_headers (heap st1) r
          = Some {[ "authorization" := JsString "Basic a2V5OnNlY3JldA==" ]}.
Proof.
  split; [reflexivity|].
  destruct (client_credentials_request sample_state sample_options sample_IOptions
              (mkCredentials (JsString "key") (JsString "secret")) eq_refl eq_refl)
    as (r & st1 & b & props & Hi & _ & _ & _ & _ & _ & _ & Hh).
  exists r, st1. split; [exact Hi | exact Hh].
Defined.

(** C5.  [getAccessTokenFromRefreshToken], on an Options value that holds
    its tokens object, issues a POST to [/oauth/token] whose body has
    [grant_type = "refresh_token"] and [refresh_token] equal to
    [options.tokens.refreshToken], through a JSON client whose only header is
    the Bearer header built from [options.tokens.accessToken]. *)
Theorem refresh_token_request st options o t :
  read_IOptions (heap st) options = Some o ->
  tokens o = Some t ->
  exists r st1 b props,
    issues (getAccessTokenFromRefreshToken options) st r st1
    /\ req_verb r = POST /\ req_path r = "/oauth/token"
    /\ encoding (req_client r) = JsonClient
    /\ req_body r = Some b /\ read_object (heap st1) b = Some props
    /\ props !! "grant_type" = Some (JsString "refresh_token")
    /\ props !! "refresh_token" = Some (refreshToken t)
    /\ request_headers (heap st1) r
       = Some {[ "authorization" := JsString ("Bearer " +:+ ToString (accessToken t)) ]}
    /\ header_scheme ("Bearer " +:+ ToString (accessToken t)) = Some Bearer.
Proof.
  intros Ho Ht.
  destruct (getAccessTokenFromRefreshToken_run st options o t Ho Ht) as (st1 & Hi & Hh).
  eexists _, st1, _, _. split; [exact Hi|].
  cbn [req_verb req_path req_body req_client encoding].
  do 4 (split; [reflexivity|]).
  split; [|split; [|split; [|split]]].
  - rewrite Hh. cbn [read_object]. rewrite lookup_ext. reflexivity.
  - reflexivity.
  - reflexivity.
  - eapply request_headers_restify; [exact Hh | reflexivity].
  - reflexivity.
Qed.

Lemma refresh_token_request_witness :
  read_IOptions (heap sample_state) sample_options = Some sample_IOptions
  /\ exists r st1 b props,
       issues (getAccessTokenFromRefreshToken sample_options) sample_state r st1
       /\ req_body r = Some b /\ read_object (heap st1) b = Some props
       /\ props !! "refresh_token" = Some (JsString "RT1")
       /\ request_headers (heap st1) r = Some {[ "authorization" := JsString "Bearer AT1" ]}.
Proof.
  split; [reflexivity|].
  destruct (refresh_token_request sample_state sample_options sample_IOptions
              (mkTokens (JsString "AT1") (JsString "RT1")) eq_refl eq_refl)
    as (r & st1 & b & props & Hi & _ & _ & _ & Hb & Hp & _ & Hr & Hh & _).
  exists r, st1, b, props.
  split; [exact Hi|]. split; [exact Hb|]. split; [exact Hp|]. split; [exact Hr|]. exact Hh.
Defined.

(** C6.  Whichever of the five operations issued the request [r], when the
    transport calls back with an error (a truthy [err]) the promise the
    operation returned is rejected with that very value; nothing else is
    touched. *)
Theorem transport_error_rejects
    (JSON_parse_text : string -> Heap -> option (JsValue * Heap))
    c st r err obj st2 :
  requests (perform c st).2 = requests st ++ [r] ->
  truthy err = true ->
  promises st2 !! length (promises st) = Some Pending ->
  (perform c st).1 = Ok (length (promises st))
  /\ exists st3,
       invoke JSON_parse_text (req_callback r) err obj st2 = (Ok tt, st3)
       /\ promises st3 !! length (promises st) = Some (Rejected (Handed err))
       /\ (forall q, q <> length (promises st) -> promises st3 !! q = promises st2 !! q)
       /\ heap st3 = heap st2 /\ requests st3 = requests st2.
Proof.
  intros Hr He Hp.
  destruct (perform_outcome c st) as (st1 & Hrun & _ & Hcase).
  rewrite Hrun in *. cbn [fst snd] in *. split; [reflexivity|].
  destruct Hcase as [(Hnone & _) | (r' & Hone & _ & Hcb)].
  - rewrite Hnone in Hr. apply (f_equal length) in Hr.
    rewrite length_app in Hr. cbn [length] in Hr. lia.
  - rewrite Hone in Hr. apply app_inj_tail in Hr as (_ & ->).
    assert (callback_promise (req_callback r) = length (promises st)) as Hq
      by (rewrite Hcb; destruct c; reflexivity).
    rewrite <- Hq in Hp.
    destruct (invoke_error JSON_parse_text _ err obj st2 He Hp) as (lg & ->).
    rewrite Hq in *. eexists. split; [reflexivity|]. cbn [promises heap requests].
    split; [apply settled_lookup, Hp|]. split; [|split; reflexivity].
    intros q Hne. apply list_lookup_insert_ne. congruence.
Qed.

Lemma transport_error_rejects_witness :
  exists st3,
    invoke parse_json_fragment (getApplication_callback 0)
      (JsObject 5) JsUndefined
      (mkState (sample_heap ++ restify_objects 3 (JsString "https://api.example")
                                  "Bearer AT1" ++ [ {[ "statusCode" := JsNumber 404 ]} ])
         [Pending] [] [])
    = (Ok tt, st3)
    /\ promises st3 !! 0 = Some (Rejected (Handed (JsObject 5))).
Proof.
  destruct (transport_error_rejects parse_json_fragment
              (call_getApplication sample_options) sample_state
              (mkRequest (mkClient JsonClient (JsObject 3)) GET "/sub1/applications/app1"
                 None (getApplication_callback 0))
              (JsObject 5) JsUndefined
              (mkState (sample_heap ++ restify_objects 3 (JsString "https://api.example")
                                          "Bearer AT1" ++ [ {[ "statusCode" := JsNumber 404 ]} ])
                 [Pending] [] [])
              eq_refl eq_refl eq_refl)
    as (_ & st3 & Hinv & Hrej & _).
  exists st3. split; [exact Hinv | exact Hrej].
Defined.

(** What every operation does on an Options value that holds the object
    its scheme reads: one request, through a client whose headers are the
    single [authorization] the spec's rule gives. *)
Lemma perform_authorized st c o v :
  read_IOptions (heap st) (call_options c) = Some o ->
  spec_authorization c o = Some v ->
  exists r st1,
    issues (perform c) st r st1
    /\ request_headers (heap st1) r = Some {[ "authorization" := JsString v ]}.
Proof.
  intros Ho Hv. destruct c as [op|op oid|op oid b|op|op];
    cbn [call_options perform spec_authorization] in *.
  - destruct (tokens o) as [t|] eqn:Ht; [|discriminate]. injection Hv as <-.
    destruct (getApplication_run st op o t Ho Ht) as (st1 & Hi & Hh).
    eexists _, st1. split; [exact Hi|].
    eapply request_headers_restify0; [exact Hh | reflexivity].
  - destruct (tokens o) as [t|] eqn:Ht; [|discriminate]. injection Hv as <-.
    destruct (getConfigObject_run st op oid o t Ho Ht) as (st1 & Hi & Hh).
    eexists _, st1. split; [exact Hi|].
    eapply request_headers_restify0; [exact Hh | reflexivity].
  - destruct (tokens o) as [t|] eqn:Ht; [|discriminate]. injection Hv as <-.
    destruct (putConfigObject_run st op oid b o t Ho Ht) as (st1 & Hi & Hh).
    eexists _, st1. split; [exact Hi|].
    eapply request_headers_restify0; [exact Hh | reflexivity].
  - destruct (tokens o) as [t|] eqn:Ht; [|discriminate]. injection Hv as <-.
    destruct (getAccessTokenFromRefreshToken_run st op o t Ho Ht) as (st1 & Hi & Hh).
    eexists _, st1. split; [exact Hi|].
    eapply request_headers_restify; [exact Hh | reflexivity].
  - destruct (credentials o) as [cr|] eqn:Hc; [|discriminate]. injection Hv as <-.
    destruct (getAccessTokenFromClientCredentials_run st op o cr Ho Hc) as (st1 & Hi & Hh).
    eexists _, st1. split; [exact Hi|].
    eapply request_headers_restify; [exact Hh | reflexivity].
Qed.

(** C7.  Each of the five operations, on an Options value that holds the
    object its scheme reads, builds exactly one header, [authorization]: a
    Basic header from the credentials [key:secret] when the operation is
    [getAccessTokenFromClientCredentials] and only then, a Bearer header from
    [options.tokens.accessToken] for the four others, token refresh
    included. *)
Theorem one_authorization_header st c o v :
  read_IOptions (heap st) (call_options c) = Some o ->
  spec_authorization c o = Some v ->
  exists r st1,
    issues (perform c) st r st1
    /\ request_headers (heap st1) r = Some {[ "authorization" := JsString v ]}
    /\ header_scheme v = Some (if is_client_credentials c then Basic else Bearer)
    /\ (is_client_credentials c = true ->
        exists cr, credentials o = Some cr
          /\ v = "Basic " +:+ Buffer_toString_base64
                                (ToString (key cr) +:+ ":" +:+ ToString (secret cr)))
    /\ (is_client_credentials c = false ->
        exists t, tokens o = Some t /\ v = "Bearer " +:+ ToString (accessToken t)).
Proof.
  intros Ho Hv.
  destruct (perform_authorized st c o v Ho Hv) as (r & st1 & Hi & Hh).
  exists r, st1. split; [exact Hi|]. split; [exact Hh|].
  destruct c; cbn [spec_authorization is_client_credentials] in *;
    destruct (tokens o) as [t|], (credentials o) as [cr|];
    cbn [fmap option_fmap option_map] in Hv; try discriminate; injection Hv as <-;
    (split; [reflexivity|]); split; intros; try discriminate; eauto.
Qed.

Lemma one_authorization_header_witness :
  read_IOptions (heap sample_state) sample_options = Some sample_IOptions
  /\ (exists r st1,
        issues (getAccessTokenFromClientCredentials sample_options) sample_state r st1
        /\ request_headers (heap st1) r
           = Some {[ "authorization" := JsString "Basic a2V5OnNlY3JldA==" ]})
  /\ (exists r st1,
        issues (getAccessTokenFromRefreshToken sample_options) sample_state r st1
        /\ request_headers (heap st1) r
           = Some {[ "authorization" := JsString "Bearer AT1" ]}).
Proof.
  split; [reflexivity|]. split.
  - destruct (one_authorization_header sample_state
                (call_getAccessTokenFromClientCredentials sample_options)
                sample_IOptions "Basic a2V5OnNlY3JldA==" eq_refl eq_refl)
      as (r & st1 & Hi & Hh & _).
    exists r, st1. split; [exact Hi | exact Hh].
  - destruct (one_authorization_header sample_state
                (call_getAccessTokenFromRefreshToken sample_options)
                sample_IOptions "Bearer AT1" eq_refl eq_refl)
      as (r & st1 & Hi & Hh & _).
    exists r, st1. split; [exact Hi | exact Hh].
Defined.

(** C8.  No operation writes to the Options value.  A call only adds
    objects to the heap: every object that was there before, the Options
    object and its credentials and tokens objects among them, has the same
    properties afterwards, so the Options value reads the same.  The
    callbacks touch the heap only through what [JSON.parse] allocates, and
    the two token callbacks hand the token reply to [resolve] and write it
    nowhere. *)
Theorem options_not_mutated
    (JSON_parse_text : string -> Heap -> option (JsValue * Heap)) c st :
  (forall l obj, heap st !! l = Some obj -> heap (perform c st).2 !! l = Some obj)
  /\ (forall l po,
        heap st !! l = Some po ->
        ~ dangling (heap st) (field po "credentials") ->
        ~ dangling (heap st) (field po "tokens") ->
        read_IOptions (heap (perform c st).2) (JsObject l)
        = read_IOptions (heap st) (JsObject l))
  /\ (forall cb err obj st2,
        heap (invoke JSON_parse_text cb err obj st2).2 = heap st2
        \/ exists parsed,
             JSON_parse_text (ToString obj) (heap st2)
             = Some (parsed, heap (invoke JSON_parse_text cb err obj st2).2))
  /\ (forall cb p err obj st2,
        cb = getAccessTokenFromRefreshToken_callback p
        \/ cb = getAccessTokenFromClientCredentials_callback p ->
        truthy err = false ->
        promises st2 !! p = Some Pending ->
        exists st3,
          invoke JSON_parse_text cb err obj st2 = (Ok tt, st3)
          /\ heap st3 = heap st2
          /\ promises st3 !! p = Some (Resolved obj)).
Proof.
  destruct (perform_outcome c st) as (st1 & Hrun & (ext & Hh) & _).
  rewrite Hrun. cbn [snd]. rewrite Hh. split; [|split; [|split]].
  - intros l obj Hl. apply lookup_app_l_Some, Hl.
  - intros l po Hl Hc Ht. apply (read_IOptions_extend _ _ l po); assumption.
  - intros cb err obj st2. apply invoke_heap.
  - intros cb p err obj st2 Hcb He Hp.
    assert (callback_promise cb = p) as Hq by (destruct Hcb; subst; reflexivity).
    rewrite <- Hq in Hp.
    destruct (invoke_success JSON_parse_text cb err obj st2 He) as (lg & ->);
      [destruct Hcb; subst; discriminate | exact Hp |].
    rewrite Hq in *. eexists. split; [reflexivity|]. split; [reflexivity|].
    apply settled_lookup, Hp.
Qed.

Example options_read_back :
  read_IOptions (heap (getAccessTokenFromRefreshToken sample_options sample_state).2)
    sample_options
  = Some sample_IOptions.
Proof. reflexivity. Qed.

(** C9.  [putConfigObject] and [getConfigObject] build the same path from
    the same Options value and object id, whatever these are; on an Options
    value with its tokens object it is
    [/{subscription}/configuration/{application}/{objectId}/{environment}]. *)
Theorem configuration_path_shared st options objectId body :
  issued_paths (putConfigObject options objectId body) st
  = issued_paths (getConfigObject options objectId) st
  /\ (forall o t,
        read_IOptions (heap st) options = Some o ->
        tokens o = Some t ->
        issued_paths (getConfigObject options objectId) st
        = [configuration_path o objectId]).
Proof.
  split; [apply configuration_paths_agree|].
  intros o t Ho Ht.
  destruct (getConfigObject_run st options objectId o t Ho Ht) as (st1 & (Hrun & Hr & _) & _).
  unfold issued_paths. rewrite Hrun. cbn [snd]. rewrite Hr.
  rewrite drop_app_length. reflexivity.
Qed.

Example configuration_path_sample :
  issued_paths (putConfigObject sample_options (JsString "raw-blob") (JsString "hello=world"))
    sample_state
  = ["/sub1/configuration/app1/raw-blob/prod"]
  /\ issued_paths (getConfigObject sample_options (JsString "raw-blob")) sample_state
     = ["/sub1/configuration/app1/raw-blob/prod"].
Proof. split; reflexivity. Qed.

(** C10, as stated, fails on an Options object on which [tokens] and
    [credentials] were never set: reading [options.tokens.accessToken]
    (or [options.credentials.key]) throws a TypeError, no header is built,
    no request is issued and the promise is rejected. *)
Lemma header_construction_not_total :
  read_IOptions (heap bare_state) bare_options
  = Some (mkIOptions (JsString "https://api.example") (JsString "sub1") (JsString "app1")
            (JsString "prod") None None)
  /\ (getRestifyOptions bare_options JsUndefined bare_state).1
     = Throw (TypeError_cannot_read JsUndefined "accessToken")
  /\ (getRestifyOptions bare_options (JsString "basic") bare_state).1
     = Throw (TypeError_cannot_read JsUndefined "key")
  /\ requests (getApplication bare_options bare_state).2 = []
  /\ promises (getApplication bare_options bare_state).2
     = [Rejected (Raised (TypeError_cannot_read JsUndefined "accessToken"))].
Proof. repeat split; reflexivity. Qed.

(** C10, amended.  The client checks none of its preconditions.  On every
    Options value that holds the object the scheme reads (tokens for the
    Bearer scheme, credentials for the Basic one), whatever [accessToken],
    [key] and [secret] are, absent and empty included, [getRestifyOptions]
    returns, the header is built by plain string interpolation (an absent
    access token gives [Bearer undefined]), and the operation issues its
    request and returns a pending promise. *)
Theorem header_construction_unchecked st options o :
  read_IOptions (heap st) options = Some o ->
  (forall t, tokens o = Some t ->
     (exists st1,
        getRestifyOptions options JsUndefined st = (Ok (JsObject (length (heap st))), st1)
        /\ heap st1
           = heap st ++ restify_objects (length (heap st)) (url o)
                          ("Bearer " +:+ ToString (accessToken t)))
     /\ (accessToken t = JsUndefined ->
         "Bearer " +:+ ToString (accessToken t) = "Bearer undefined")
     /\ forall c,
          call_options c = options -> is_client_credentials c = false ->
          exists r st1,
            issues (perform c) st r st1
            /\ request_headers (heap st1) r
               = Some {[ "authorization" := JsString ("Bearer " +:+ ToString (accessToken t)) ]})
  /\ (forall cr, credentials o = Some cr ->
        (exists st1,
           getRestifyOptions options (JsString "basic") st
           = (Ok (JsObject (length (heap st))), st1)
           /\ heap st1
              = heap st ++ restify_objects (length (heap st)) (url o)
                             ("Basic " +:+ Buffer_toString_base64
                                             (ToString (key cr) +:+ ":" +:+ ToString (secret cr))))
        /\ exists r st1,
             issues (getAccessTokenFromClientCredentials options) st r st1
             /\ request_headers (heap st1) r
                = Some {[ "authorization" :=
                            JsString ("Basic " +:+ Buffer_toString_base64
                                        (ToString (key cr) +:+ ":" +:+ ToString (secret cr))) ]}).
Proof.
  intros Ho. split.
  - intros t Ht. split; [|split].
    + clear -Ho Ht. start st o. destruct t. open_tokens Ho Ht.
      unfold restify_objects. unfold_client. run. eexists. split; reflexivity.
    + intros ->. reflexivity.
    + intros c <- Hc. apply (perform_authorized st c o); [exact Ho|].
      destruct c; try discriminate; cbn [spec_authorization]; rewrite Ht; reflexivity.
  - intros cr Hcr. split.
    + clear -Ho Hcr. start st o. destruct cr. open_credentials Ho Hcr.
      unfold restify_objects. unfold_client. run. eexists. split; reflexivity.
    + apply (perform_authorized st (call_getAccessTokenFromClientCredentials options) o);
        [exact Ho|]. cbn [spec_authorization]. rewrite Hcr. reflexivity.
Qed.

(** On an Options value whose tokens and credentials objects are empty the
    headers are [Bearer undefined] and [Basic base64("undefined:undefined")],
    and the requests go out. *)
Lemma header_construction_unchecked_witness :
  read_IOptions (heap hollow_state) sample_options
  = Some (mkIOptions (JsString "https://api.example") (JsString "sub1") (JsString "app1")
            (JsString "prod")
            (Some (mkCredentials JsUndefined JsUndefined))
            (Some (mkTokens JsUndefined JsUndefined)))
  /\ (exists r st1,
        issues (getApplication sample_options) hollow_state r st1
        /\ request_headers (heap st1) r
           = Some {[ "authorization" := JsString "Bearer undefined" ]})
  /\ (exists r st1,
        issues (getAccessTokenFromClientCredentials sample_options) hollow_state r st1
        /\ request_headers (heap st1) r
           = Some {[ "authorization" := JsString "Basic dW5kZWZpbmVkOnVuZGVmaW5lZA==" ]}).
Proof.
  split; [reflexivity|].
  destruct (header_construction_unchecked hollow_state sample_options _ eq_refl)
    as (Hbearer & Hbasic).
  split.
  - destruct (Hbearer (mkTokens JsUndefined JsUndefined) eq_refl) as (_ & _ & Hc).
    apply (Hc (call_getApplication sample_options)); reflexivity.
  - destruct (Hbasic (mkCredentials JsUndefined JsUndefined) eq_refl) as (_ & Hc).
    exact Hc.
Defined.

(** * Further properties of the client *)

(** ** Every call, whatever its arguments *)

Ltac detail_done :=
  eexists; split; [reflexivity|]; cbn [heap promises requests]; split;
    [ grows
    | first [ left; split; [reflexivity | do 2 eexists; reflexivity]
            | right; eexists; split; [reflexivity|]; split; [reflexivity|];
              split; [reflexivity|]; split; [reflexivity|]; split; [reflexivity|];
              repeat (rewrite length_alter || rewrite length_app); cbn [length]; lia ] ].

Lemma perform_detail c st :
  exists st1,
    perform c st = (Ok (length (promises st)), st1)
    /\ (exists ext, heap st1 = heap st ++ ext)
    /\ ((requests st1 = requests st
         /\ exists base name,
              promises st1
              = promises st ++ [Rejected (Raised (TypeError_cannot_read base name))])
        \/ (exists r, requests st1 = requests st ++ [r]
            /\ promises st1 = promises st ++ [Pending]
            /\ req_callback r = callback_of c (length (promises st))
            /\ req_verb r = call_verb c
            /\ client_options (req_client r) = JsObject (length (heap st))
            /\ length (heap st) + 2 <= length (heap st1))).
Proof.
  destruct st as [h ps rs lg].
  destruct c as [o|o i|o i b|o|o];
    cbn [perform callback_of call_verb heap promises requests];
    unfold_client;
    try destruct (String.eqb (typeof b) "string");
    destruct o; exec; repeat (split_read; exec); detail_done.
Qed.


(** X2.  Two calls in a row share nothing: each gets its own promise and
    its own client options object, the second leaves the request and the
    objects of the first as they were. *)
Theorem consecutive_calls_share_nothing c1 c2 st r1 r2 :
  requests (perform c1 st).2 = requests st ++ [r1] ->
  requests (perform c2 (perform c1 st).2).2 = requests (perform c1 st).2 ++ [r2] ->
  requests (perform c2 (perform c1 st).2).2 = requests st ++ [r1; r2]
  /\ promises (perform c2 (perform c1 st).2).2 = promises st ++ [Pending; Pending]
  /\ callback_promise (req_callback r1) <> callback_promise (req_callback r2)
  /\ client_options (req_client r1) <> client_options (req_client r2)
  /\ (forall l obj,
        heap (perform c1 st).2 !! l = Some obj ->
        heap (perform c2 (perform c1 st).2).2 !! l = Some obj).
Proof.
  destruct (perform_detail c1 st) as (st1 & Hrun1 & (ext1 & Hh1) & Hcase1).
  rewrite Hrun1. cbn [snd].
  destruct (perform_detail c2 st1) as (st2 & Hrun2 & (ext2 & Hh2) & Hcase2).
  rewrite Hrun2. cbn [snd]. intros H1 H2.
  destruct Hcase1 as [(Hn1 & _) | (r1' & Hr1 & Hp1 & Hcb1 & _ & Hc1 & Hlen1)].
  { rewrite Hn1 in H1. apply (f_equal length) in H1.
    rewrite length_app in H1. cbn [length] in H1. lia. }
  destruct Hcase2 as [(Hn2 & _) | (r2' & Hr2 & Hp2 & Hcb2 & _ & Hc2 & _)].
  { rewrite Hn2 in H2. apply (f_equal length) in H2.
    rewrite length_app in H2. cbn [length] in H2. lia. }
  rewrite Hr1 in H1. apply app_inj_tail in H1 as (_ & ->).
  rewrite Hr2 in H2. apply app_inj_tail in H2 as (_ & ->).
  split; [rewrite Hr2, Hr1, <- app_assoc; reflexivity|].
  split; [rewrite Hp2, Hp1, <- app_assoc; reflexivity|].
  split.
  - rewrite Hcb1, Hcb2, Hp1, length_app. cbn [length].
    destruct c1, c2; cbn [callback_of callback_promise]; lia.
  - split.
    + rewrite Hc1, Hc2. intros [= Heq]. lia.
    + intros l obj Hl. rewrite Hh2. apply lookup_app_l_Some, Hl.
Qed.

Lemma consecutive_calls_share_nothing_witness :
  let r1 := mkRequest (mkClient JsonClient (JsObject 3)) POST "/oauth/token"
              (Some (JsObject 5)) (getAccessTokenFromRefreshToken_callback 0) in
  let r2 := mkRequest (mkClient JsonClient (JsObject 6)) GET
              "/sub1/configuration/app1/feature-flags/prod" None
              (getConfigObject_callback 1) in
  requests (perform (call_getConfigObject sample_options (JsString "feature-flags"))
              (perform (call_getAccessTokenFromRefreshToken sample_options)
                 sample_state).2).2
  = [r1; r2]
  /\ client_options (req_client r1) <> client_options (req_client r2).
Proof.
  intros r1 r2.
  destruct (consecutive_calls_share_nothing
              (call_getAccessTokenFromRefreshToken sample_options)
              (call_getConfigObject sample_options (JsString "feature-flags"))
              sample_state r1 r2 eq_refl eq_refl)
    as (Hr & _ & _ & Hc & _).
  split; [exact Hr | exact Hc].
Defined.

(** ** Calls on an incomplete Options value *)

(** X3.  Called with [undefined] or [null] for the Options value, every
    operation fails on its first read, [options.url]: nothing is allocated,
    nothing is sent, and the promise is rejected with the TypeError. *)
Theorem call_without_options c st :
  call_options c = JsUndefined \/ call_options c = JsNull ->
  exists st1,
    perform c st = (Ok (length (promises st)), st1)
    /\ heap st1 = heap st
    /\ requests st1 = requests st
    /\ promises st1
       = promises st ++ [Rejected (Raised (TypeError_cannot_read (call_options c) "url"))].
Proof.
  intros Ho. destruct st as [h ps rs lg].
  destruct c as [o|o i|o i b|o|o]; cbn [call_options perform] in *;
    (destruct Ho as [-> | ->]); unfold_client;
    try destruct (String.eqb (typeof b) "string");
    exec; eexists; repeat split.
Qed.

Lemma call_without_options_witness :
  exists st1,
    perform (call_putConfigObject JsUndefined (JsString "raw-blob") (JsString "hello=world"))
      sample_state
    = (Ok 0, st1)
    /\ requests st1 = []
    /\ promises st1 = [Rejected (Raised (TypeError_cannot_read JsUndefined "url"))].
Proof.
  destruct (call_without_options
              (call_putConfigObject JsUndefined (JsString "raw-blob") (JsString "hello=world"))
              sample_state (or_introl eq_refl))
    as (st1 & Hrun & _ & Hr & Hp).
  exists st1. split; [exact Hrun|]. split; [exact Hr | exact Hp].
Defined.

(** X4.  The four operations that authenticate with a Bearer header need
    the tokens object.  When [options.tokens] is [undefined] or [null], the
    read of [options.tokens.accessToken] throws: the promise is rejected with
    that TypeError and nothing reaches the transport, not even for
    [getAccessTokenFromRefreshToken]. *)
Theorem bearer_call_needs_tokens c st l po :
  is_client_credentials c = false ->
  call_options c = JsObject l ->
  heap st !! l = Some po ->
  field po "tokens" = JsUndefined \/ field po "tokens" = JsNull ->
  exists st1,
    perform c st = (Ok (length (promises st)), st1)
    /\ requests st1 = requests st
    /\ promises st1
       = promises st
         ++ [Rejected (Raised (TypeError_cannot_read (field po "tokens") "accessToken"))].
Proof.
  intros Hc Ho Hl Ht. destruct st as [h ps rs lg].
  destruct c as [o|o i|o i b|o|o]; try discriminate;
    cbn [perform call_options heap promises requests] in *; subst;
    unfold_client; try destruct (String.eqb (typeof b) "string");
    exec; heap_norm; heap_read; cbn [from_option id];
    (destruct Ht as [Ht | Ht]); rewrite Ht; exec; eexists; repeat split.
Qed.

Lemma bearer_call_needs_tokens_witness :
  exists st1,
    perform (call_getAccessTokenFromRefreshToken bare_options) bare_state = (Ok 0, st1)
    /\ requests st1 = []
    /\ promises st1 = [Rejected (Raised (TypeError_cannot_read JsUndefined "accessToken"))].
Proof.
  destruct (bearer_call_needs_tokens (call_getAccessTokenFromRefreshToken bare_options)
              bare_state 0 _ eq_refl eq_refl eq_refl (or_introl eq_refl))
    as (st1 & Hrun & Hr & Hp).
  exists st1. split; [exact Hrun|]. split; [exact Hr | exact Hp].
Defined.

(** X5.  [getAccessTokenFromClientCredentials] needs the credentials
    object and nothing of the tokens: without [options.credentials] the read
    of [key] throws, the promise is rejected and nothing is sent; with it,
    the request goes out whatever [options.tokens] is. *)
Theorem client_credentials_call_needs_credentials st l po :
  heap st !! l = Some po ->
  (field po "credentials" = JsUndefined \/ field po "credentials" = JsNull ->
   exists st1,
     getAccessTokenFromClientCredentials (JsObject l) st = (Ok (length (promises st)), st1)
     /\ requests st1 = requests st
     /\ promises st1
        = promises st
          ++ [Rejected (Raised (TypeError_cannot_read (field po "credentials") "key"))])
  /\ (forall lc pc,
        field po "credentials" = JsObject lc -> heap st !! lc = Some pc ->
        exists r st1,
          issues (getAccessTokenFromClientCredentials (JsObject l)) st r st1
          /\ request_headers (heap st1) r
             = Some {[ "authorization" :=
                         JsString ("Basic " +:+ Buffer_toString_base64
                                     (ToString (field pc "key") +:+ ":"
                                      +:+ ToString (field pc "secret"))) ]}).
Proof.
  intros Hl. split.
  - intros Hc. destruct st as [h ps rs lg]. cbn [heap promises requests] in *.
    unfold_client. exec. heap_norm. heap_read. cbn [from_option id].
    destruct Hc as [Hc | Hc]; rewrite Hc; exec; eexists; repeat split.
  - intros lc pc Hc Hlc.
    assert (read_IOptions (heap st) (JsObject l)
            = Some (mkIOptions (field po "url") (field po "subscription")
                      (field po "application") (field po "environment")
                      (Some (mkCredentials (field pc "key") (field pc "secret")))
                      (read_Tokens (heap st) (field po "tokens")))) as Ho.
    { unfold read_IOptions, read_Credentials. cbn [read_object]. rewrite Hl.
      cbn [mbind option_bind]. rewrite Hc. cbn [read_object]. rewrite Hlc. reflexivity. }
    apply (perform_authorized st (call_getAccessTokenFromClientCredentials (JsObject l))
             _ _ Ho).
    reflexivity.
Qed.

Lemma client_credentials_call_needs_credentials_witness :
  (exists st1,
     getAccessTokenFromClientCredentials bare_options bare_state = (Ok 0, st1)
     /\ requests st1 = []
     /\ promises st1 = [Rejected (Raised (TypeError_cannot_read JsUndefined "key"))])
  /\ heap bare_state !! 0
     = Some {[ "url" := JsString "https://api.example"; "subscription" := JsString "sub1";
               "application" := JsString "app1"; "environment" := JsString "prod" ]}.
Proof.
  split; [|reflexivity].
  exact (proj1 (client_credentials_call_needs_credentials bare_state 0 _ eq_refl)
           (or_introl eq_refl)).
Defined.

(** ** The callbacks, whatever the transport does *)

(** X6.  After a raw-string write, whenever [JSON.parse] refuses the reply
    the exception leaves the callback: the callback returns nothing, the
    state is exactly as before, so a pending promise stays pending. *)
Theorem decode_failure_leaves_promise_pending
    (JSON_parse_text : string -> Heap -> option (JsValue * Heap))
    st options objectId body o t err obj st2 :
  read_IOptions (heap st) options = Some o ->
  tokens o = Some t ->
  typeof body = "string" ->
  truthy err = false ->
  JSON_parse_text (ToString obj) (heap st2) = None ->
  exists r st1,
    issues (putConfigObject options objectId body) st r st1
    /\ invoke JSON_parse_text (req_callback r) err obj st2
       = (Throw (SyntaxError_JSON (ToString obj)), st2).
Proof.
  intros Ho Ht Hb He Hj.
  destruct (putConfigObject_run st options objectId body o t Ho Ht) as (st1 & Hi & _).
  eexists _, st1. split; [exact Hi|].
  cbn [req_callback]. rewrite Hb. cbn [String.eqb Ascii.eqb Bool.eqb].
  apply invoke_not_parsed; assumption.
Qed.

(** An empty reply body, as after a 204, is one such reply. *)
Lemma decode_failure_leaves_promise_pending_witness :
  exists r st1,
    issues (putConfigObject sample_options (JsString "raw-blob") (JsString "hello=world"))
      sample_state r st1
    /\ invoke parse_json_fragment (req_callback r) JsNull (JsString EmptyString)
         (mkState sample_heap [Pending] [] [])
       = (Throw (SyntaxError_JSON EmptyString), mkState sample_heap [Pending] [] []).
Proof.
  exact (decode_failure_leaves_promise_pending parse_json_fragment sample_state
           sample_options (JsString "raw-blob") (JsString "hello=world") sample_IOptions
           (mkTokens (JsString "AT1") (JsString "RT1")) JsNull (JsString EmptyString)
           (mkState sample_heap [Pending] [] []) eq_refl eq_refl eq_refl eq_refl eq_refl).
Defined.

Lemma settle_other (p q : nat) (s : Settlement) (st : State) :
  q <> p \/ promises st !! q <> Some Pending ->
  promises (settle p s st).2 !! q = promises st !! q.
Proof.
  intros Hq. unfold settle.
  destruct (promises st !! p) as [[| |]|] eqn:Hp; cbn [snd promises]; try reflexivity.
  destruct (decide (q = p)) as [->|Hne].
  - destruct Hq as [Hq|Hq]; congruence.
  - apply list_lookup_insert_ne. congruence.
Qed.

(** X7.  A callback settles its own promise only, and only while it is
    pending: every other promise, and a promise that is already resolved or
    rejected, is left as it was, whatever the transport passes.  A second
    reply cannot change the outcome of a call. *)
Theorem callback_settles_once
    (JSON_parse_text : string -> Heap -> option (JsValue * Heap))
    cb err obj st q :
  q <> callback_promise cb \/ promises st !! q <> Some Pending ->
  promises (invoke JSON_parse_text cb err obj st).2 !! q = promises st !! q.
Proof.
  intros Hq.
  assert (forall lvl msg fields p s,
            promises ((Logger_log lvl msg fields ;; settle p s) st).2 !! q
            = promises (settle p s st).2 !! q) as Hlog.
  { intros. destruct st as [h ps rs lg]. unfold settle. exec.
    destruct (ps !! p) as [[| |]|]; reflexivity. }
  destruct cb as [p|p|p [|]|p|p]; cbn [invoke callback_promise] in *;
    destruct (truthy err); unfold resolve, reject;
    try (rewrite Hlog; apply settle_other; exact Hq).
  - unfold JSON_parse. destruct st as [h ps rs lg]. exec.
    destruct (JSON_parse_text (ToString obj) h) as [[parsed h2]|]; exec;
      [|reflexivity].
    cbn [promises] in Hq.
    destruct (ps !! p) as [[| |]|] eqn:Hp; cbn [snd promises]; try reflexivity.
    destruct (decide (q = p)) as [->|Hne]; [destruct Hq; congruence|].
    apply list_lookup_insert_ne. congruence.
  - destruct st as [h ps rs lg]. exec. cbn [promises] in Hq.
    destruct (ps !! p) as [[| |]|] eqn:Hp; cbn [snd promises]; try reflexivity.
    destruct (decide (q = p)) as [->|Hne]; [destruct Hq; congruence|].
    apply list_lookup_insert_ne. congruence.
Qed.

(** A reply with an error after the promise was resolved changes nothing. *)
Lemma callback_settles_once_witness :
  let st := mkState sample_heap [Resolved (JsObject 1)] [] [] in
  promises st !! 0 = Some (Resolved (JsObject 1))
  /\ promises (invoke parse_json_fragment (getApplication_callback 0) (JsObject 0)
                 JsUndefined st).2 !! 0
     = promises st !! 0.
Proof.
  intros st. split; [reflexivity|].
  apply callback_settles_once. right. discriminate.
Defined.

(** ** What the transport is configured with *)

Lemma perform_run st c o v :
  read_IOptions (heap st) (call_options c) = Some o ->
  spec_authorization c o = Some v ->
  exists r st1 ext,
    issues (perform c) st r st1
    /\ heap st1 = heap st ++ restify_objects (length (heap st)) (url o) v ++ ext
    /\ req_client r = mkClient (call_encoding c) (JsObject (length (heap st))).
Proof.
  intros Ho Hv. destruct c as [op|op oid|op oid b|op|op];
    cbn [call_options perform spec_authorization call_encoding] in *.
  - destruct (tokens o) as [t|] eqn:Ht; [|discriminate]. injection Hv as <-.
    destruct (getApplication_run st op o t Ho Ht) as (st1 & Hi & Hh).
    eexists _, st1, []. split; [exact Hi|]. split; [by rewrite app_nil_r | reflexivity].
  - destruct (tokens o) as [t|] eqn:Ht; [|discriminate]. injection Hv as <-.
    destruct (getConfigObject_run st op oid o t Ho Ht) as (st1 & Hi & Hh).
    eexists _, st1, []. split; [exact Hi|]. split; [by rewrite app_nil_r | reflexivity].
  - destruct (tokens o) as [t|] eqn:Ht; [|discriminate]. injection Hv as <-.
    destruct (putConfigObject_run st op oid b o t Ho Ht) as (st1 & Hi & Hh).
    eexists _, st1, []. split; [exact Hi|]. split; [by rewrite app_nil_r | reflexivity].
  - destruct (tokens o) as [t|] eqn:Ht; [|discriminate]. injection Hv as <-.
    destruct (getAccessTokenFromRefreshToken_run st op o t Ho Ht) as (st1 & Hi & Hh).
    eexists _, st1, _. split; [exact Hi|]. split; [exact Hh | reflexivity].
  - destruct (credentials o) as [cr|] eqn:Hc; [|discriminate]. injection Hv as <-.
    destruct (getAccessTokenFromClientCredentials_run st op o cr Ho Hc) as (st1 & Hi & Hh).
    eexists _, st1, _. split; [exact Hi|]. split; [exact Hh | reflexivity].
Qed.

(** X8.  Every operation configures its client from the Options value
    alone: the base url is [options.url] as it stands, the version is ["*"],
    and besides the reference to the new headers object nothing else is set.
    The string client is used by a write of a string body and by nothing
    else. *)
Theorem transport_configuration st c o v :
  read_IOptions (heap st) (call_options c) = Some o ->
  spec_authorization c o = Some v ->
  exists r st1,
    issues (perform c) st r st1
    /\ read_object (heap st1) (client_options (req_client r))
       = Some (<["headers" := JsObject (length (heap st) + 1)]>
                 {[ "url" := url o; "version" := JsString "*" ]})
    /\ (encoding (req_client r) = StringClient
        <-> exists options objectId s,
              c = call_putConfigObject options objectId (JsString s)).
Proof.
  intros Ho Hv.
  destruct (perform_run st c o v Ho Hv) as (r & st1 & ext & Hi & Hh & Hc).
  exists r, st1. split; [exact Hi|].
  rewrite Hc, Hh. cbn [client_options encoding read_object]. split.
  - rewrite lookup_ext0. reflexivity.
  - destruct c as [op|op oid|op oid b|op|op]; cbn [call_encoding];
      try (split; [discriminate | intros (? & ? & ? & [=])]).
    destruct b; cbn [typeof String.eqb Ascii.eqb Bool.eqb];
      (split; [try discriminate; eauto | try (intros (? & ? & ? & [=])); reflexivity]).
Qed.

Lemma transport_configuration_witness :
  exists r st1,
    issues (perform (call_getConfigObject sample_options (JsString "feature-flags")))
      sample_state r st1
    /\ read_object (heap st1) (client_options (req_client r))
       = Some {[ "headers" := JsObject 4; "url" := JsString "https://api.example";
                 "version" := JsString "*" ]}.
Proof.
  destruct (transport_configuration sample_state
              (call_getConfigObject sample_options (JsString "feature-flags"))
              sample_IOptions "Bearer AT1" eq_refl eq_refl)
    as (r & st1 & Hi & Hr & _).
  exists r, st1. split; [exact Hi | exact Hr].
Defined.

(** ** One call after another *)

Lemma read_IOptions_grow_tokens (h ext : Heap) v o t :
  read_IOptions h v = Some o ->
  tokens o = Some t ->
  exists o', read_IOptions (h ++ ext) v = Some o' /\ tokens o' = Some t.
Proof.
  intros Ho Ht. apply read_IOptions_inv in Ho as (l & po & -> & Hl & _ & _ & _ & _ & _ & Hrt).
  rewrite Ht in Hrt. symmetry in Hrt.
  apply read_Tokens_inv in Hrt as (lt & pt & Htok & Hlt & Hat & Hrf).
  unfold read_IOptions. cbn [read_object].
  rewrite (lookup_app_l_Some _ _ _ _ Hl). cbn [mbind option_bind].
  eexists. split; [reflexivity|]. cbn [tokens].
  unfold read_Tokens. rewrite Htok. cbn [read_object].
  rewrite (lookup_app_l_Some _ _ _ _ Hlt). cbn [mbind option_bind].
  destruct t as [a r]. cbn [accessToken refreshToken] in *. subst. reflexivity.
Qed.

(** X9.  A token refresh does not change what later calls send.  After
    [getAccessTokenFromRefreshToken] has resolved with the reply, whatever
    it holds, a Bearer call on the same Options object still goes out with
    the header built from the access token that Options holds: the caller
    has to store the new token itself. *)
Theorem refresh_leaves_later_calls_on_old_token
    (JSON_parse_text : string -> Heap -> option (JsValue * Heap))
    st options o t obj c :
  read_IOptions (heap st) options = Some o ->
  tokens o = Some t ->
  call_options c = options ->
  is_client_credentials c = false ->
  exists r1 st1 st2 r2 st3,
    issues (getAccessTokenFromRefreshToken options) st r1 st1
    /\ invoke JSON_parse_text (req_callback r1) JsNull obj st1 = (Ok tt, st2)
    /\ promises st2 !! length (promises st) = Some (Resolved obj)
    /\ issues (perform c) st2 r2 st3
    /\ request_headers (heap st3) r2
       = Some {[ "authorization" := JsString ("Bearer " +:+ ToString (accessToken t)) ]}.
Proof.
  intros Ho Ht Hc Hb.
  destruct (getAccessTokenFromRefreshToken_run st options o t Ho Ht) as (st1 & Hi & Hh).
  assert (promises st1 !! length (promises st) = Some Pending) as Hp.
  { destruct Hi as (_ & _ & ->). apply list_lookup_middle. reflexivity. }
  destruct (invoke_success JSON_parse_text
              (getAccessTokenFromRefreshToken_callback (length (promises st)))
              JsNull obj st1 eq_refl) as (lg & Hinv); [discriminate | exact Hp |].
  cbn [callback_promise] in Hinv.
  destruct (read_IOptions_grow_tokens (heap st)
              (restify_objects (length (heap st)) (url o) (bearer_header t)
               ++ [ {[ "grant_type" := JsString "refresh_token";
                       "refresh_token" := refreshToken t ]} ])
              options o t Ho Ht) as (o' & Ho' & Ht').
  rewrite <- Hh in Ho'.
  set (st2 := mkState (heap st1)
                (<[length (promises st) := Resolved obj]> (promises st1))
                (requests st1) (log st1 ++ lg)) in *.
  destruct (perform_authorized st2 c o' (bearer_header t)) as (r2 & st3 & Hi2 & Hh2).
  { rewrite Hc. exact Ho'. }
  { destruct c; try discriminate; cbn [spec_authorization]; rewrite Ht'; reflexivity. }
  eexists _, st1, st2, r2, st3. split; [exact Hi|]. split; [exact Hinv|].
  split; [apply settled_lookup, Hp|]. split; [exact Hi2 | exact Hh2].
Qed.

Lemma refresh_leaves_later_calls_on_old_token_witness :
  exists r1 st1 st2 r2 st3,
    issues (getAccessTokenFromRefreshToken sample_options) sample_state r1 st1
    /\ invoke parse_json_fragment (req_callback r1) JsNull (JsObject 5) st1 = (Ok tt, st2)
    /\ issues (getConfigObject sample_options (JsString "feature-flags")) st2 r2 st3
    /\ request_headers (heap st3) r2 = Some {[ "authorization" := JsString "Bearer AT1" ]}.
Proof.
  destruct (refresh_leaves_later_calls_on_old_token parse_json_fragment sample_state
              sample_options sample_IOptions (mkTokens (JsString "AT1") (JsString "RT1"))
              (JsObject 5) (call_getConfigObject sample_options (JsString "feature-flags"))
              eq_refl eq_refl eq_refl eq_refl)
    as (r1 & st1 & st2 & r2 & st3 & H1 & H2 & _ & H3 & H4).
  exists r1, st1, st2, r2, st3. split; [exact H1|]. split; [exact H2|].
  split; [exact H3 | exact H4].
Defined.

(** ** What is handed to the logger *)



(** * Properties of FileSystem *)

Ltac fs_exec :=
  cbv beta iota zeta delta
    [mbind mret FileSystem.FS_bind FileSystem.FS_ret FileSystem.Logger_debug
     FileSystem.new_Promise FileSystem.settle FileSystem.resolve FileSystem.reject
     FileSystem.fs FileSystem.readFile FileSystem.writeFile FileSystem.invoke
     FileSystem.ensureDirectory FileSystem.getPlatform FileSystem.process_env
     FileSystem.getUserHome FileSystem.existsSync FileSystem.platform FileSystem.env
     FileSystem.promises FileSystem.calls FileSystem.debug FileSystem.callback_promise
     fst snd negb].

Lemma fs_invoke_settles cb err data w :
  FileSystem.promises w !! FileSystem.callback_promise cb = Some Pending ->
  FileSystem.promises (FileSystem.invoke cb err data w).2
  = <[FileSystem.callback_promise cb :=
        if truthy err then Rejected (Handed err)
        else match cb with
             | FileSystem.readFile_callback _ => Resolved data
             | FileSystem.writeFile_callback _ => Resolved JsUndefined
             end]> (FileSystem.promises w)
  /\ FileSystem.calls (FileSystem.invoke cb err data w).2 = FileSystem.calls w.
Proof.
  intros Hp. destruct w as [ex pl en ps cs dbg].
  destruct cb as [p|p]; cbn [FileSystem.callback_promise FileSystem.promises] in *;
    fs_exec; destruct (truthy err); fs_exec; rewrite Hp; split; reflexivity.
Qed.

(** X11.  [readFile(filename)] returns a new pending promise and asks [fs]
    for exactly one read, of that file name, as utf8.  When [fs] replies
    with an error the promise is rejected with that same error, otherwise it
    is resolved with the data as they came. *)
Theorem readFile_wraps_fs w filename :
  (FileSystem.readFile filename w).1 = length (FileSystem.promises w)
  /\ FileSystem.calls (FileSystem.readFile filename w).2
     = FileSystem.calls w
       ++ [FileSystem.fs_readFile filename "utf8"
             (FileSystem.readFile_callback (length (FileSystem.promises w)))]
  /\ FileSystem.promises (FileSystem.readFile filename w).2
     = FileSystem.promises w ++ [Pending]
  /\ (forall err data w2,
        FileSystem.promises w2 !! length (FileSystem.promises w) = Some Pending ->
        FileSystem.promises
          (FileSystem.invoke (FileSystem.readFile_callback (length (FileSystem.promises w)))
             err data w2).2
        !! length (FileSystem.promises w)
        = Some (if truthy err then Rejected (Handed err) else Resolved data)).
Proof.
  destruct w as [ex pl en ps cs dbg]. do 3 (split; [reflexivity|]).
  cbn [FileSystem.promises]. intros err data w2 Hp.
  destruct (fs_invoke_settles (FileSystem.readFile_callback (length ps)) err data w2 Hp)
    as (-> & _).
  apply settled_lookup, Hp.
Qed.

(** X12.  [writeFile(filename, data)] returns a new pending promise and
    asks [fs] for exactly one write, of these data to that file name, as
    utf8.  An error from [fs] rejects the promise with that same error; a
    success resolves it with [undefined], whatever [fs] passes along. *)
Theorem writeFile_wraps_fs w filename data :
  (FileSystem.writeFile filename data w).1 = length (FileSystem.promises w)
  /\ FileSystem.calls (FileSystem.writeFile filename data w).2
     = FileSystem.calls w
       ++ [FileSystem.fs_writeFile filename data "utf8"
             (FileSystem.writeFile_callback (length (FileSystem.promises w)))]
  /\ FileSystem.promises (FileSystem.writeFile filename data w).2
     = FileSystem.promises w ++ [Pending]
  /\ (forall err passed w2,
        FileSystem.promises w2 !! length (FileSystem.promises w) = Some Pending ->
        FileSystem.promises
          (FileSystem.invoke (FileSystem.writeFile_callback (length (FileSystem.promises w)))
             err passed w2).2
        !! length (FileSystem.promises w)
        = Some (if truthy err then Rejected (Handed err) else Resolved JsUndefined)).
Proof.
  destruct w as [ex pl en ps cs dbg]. do 3 (split; [reflexivity|]).
  cbn [FileSystem.promises]. intros err passed w2 Hp.
  destruct (fs_invoke_settles (FileSystem.writeFile_callback (length ps)) err passed w2 Hp)
    as (-> & _).
  apply settled_lookup, Hp.
Qed.

(** X13.  A callback of [readFile] or [writeFile] leaves a promise that is
    already settled, and every promise but its own, as it was; it asks
    nothing of [fs] and does not touch the rest of the world. *)
Theorem fs_callback_settles_once cb err data w q :
  q <> FileSystem.callback_promise cb \/ FileSystem.promises w !! q <> Some Pending ->
  FileSystem.promises (FileSystem.invoke cb err data w).2 !! q = FileSystem.promises w !! q
  /\ FileSystem.calls (FileSystem.invoke cb err data w).2 = FileSystem.calls w
  /\ FileSystem.env (FileSystem.invoke cb err data w).2 = FileSystem.env w
  /\ FileSystem.platform (FileSystem.invoke cb err data w).2 = FileSystem.platform w.
Proof.
  intros Hq. destruct w as [ex pl en ps cs dbg].
  destruct cb as [p|p]; cbn [FileSystem.callback_promise FileSystem.promises] in *;
    fs_exec; destruct (truthy err); fs_exec;
    destruct (ps !! p) as [[| |]|] eqn:Hp; fs_exec; repeat split;
    destruct (decide (q = p)) as [->|Hne];
    try (destruct Hq; congruence);
    apply list_lookup_insert_ne; congruence.
Qed.

Lemma fs_callback_settles_once_witness :
  let w := FileSystem.mkWorld (fun _ => false) "linux" ∅ [Rejected (Handed (JsObject 0))] [] [] in
  FileSystem.promises w !! 0 = Some (Rejected (Handed (JsObject 0)))
  /\ FileSystem.promises
       (FileSystem.invoke (FileSystem.readFile_callback 0) JsNull (JsString "late") w).2 !! 0
     = FileSystem.promises w !! 0.
Proof.
  intros w. split; [reflexivity|].
  apply (fs_callback_settles_once (FileSystem.readFile_callback 0)). right. discriminate.
Defined.


(** X15.  [getUserHome()] reads one variable, USERPROFILE on win32 and
    HOME on every other platform, and never falls back on the other one:
    when its variable is not set the result is [undefined], and setting any
    other variable does not change the result. *)
Theorem getUserHome_reads_one_variable w :
  let home := if String.eqb (FileSystem.platform w) "win32" then "USERPROFILE" else "HOME" in
  (FileSystem.env w !! home = None -> (FileSystem.getUserHome w).1 = JsUndefined)
  /\ (forall v, FileSystem.env w !! home = Some v ->
        (FileSystem.getUserHome w).1 = JsString v)
  /\ (forall name v,
        name <> home ->
        (FileSystem.getUserHome
           (FileSystem.mkWorld (FileSystem.existsSync w) (FileSystem.platform w)
              (<[name := v]> (FileSystem.env w)) (FileSystem.promises w)
              (FileSystem.calls w) (FileSystem.debug w))).1
        = (FileSystem.getUserHome w).1)
  /\ FileSystem.calls (FileSystem.getUserHome w).2 = FileSystem.calls w.
Proof.
  destruct w as [ex pl en ps cs dbg]. fs_exec.
  destruct (String.eqb pl "win32"); fs_exec; repeat split.
  - intros ->. reflexivity.
  - intros v ->. reflexivity.
  - intros name v Hne. rewrite lookup_insert_ne by exact Hne. reflexivity.
  - intros ->. reflexivity.
  - intros v ->. reflexivity.
  - intros name v Hne. rewrite lookup_insert_ne by exact Hne. reflexivity.
Qed.

Example getUserHome_sample :
  (FileSystem.getUserHome FileSystem.sample_world).1 = JsString "/home/cloco"
  /\ (FileSystem.getUserHome
        (FileSystem.mkWorld (fun _ => false) "linux" {[ "USERPROFILE" := "C:\Users\cloco" ]}
           [] [] [])).1
     = JsUndefined.
Proof. split; reflexivity. Qed.

Example ensureDirectory_sample :
  FileSystem.calls (FileSystem.ensureDirectory "/home/cloco" FileSystem.sample_world).2 = []
  /\ FileSystem.calls
       (FileSystem.ensureDirectory "/home/cloco/.cloco" FileSystem.sample_world).2
     = [FileSystem.fs_mkdir "/home/cloco/.cloco"].
Proof. split; reflexivity. Qed.
